(** * hf-sm-news: the headline cleaning pipeline of the BERT notebook

    A shallow embedding of the data-preparation cells of the notebook
    (the regex cleaners, [text_preprocessing], the 63-character cut, the
    label encoder, the empty-sentence filter and the train/test split),
    with the properties the specification states about them. *)

From Stdlib Require Import String Ascii.
From Stdlib Require Import List NArith Bool Arith Lia Permutation Sorted.
Import ListNotations.
Local Open Scope N_scope.

Set Implicit Arguments.

(** ** Python strings

    A Python [str] is a sequence of Unicode code points. *)

Definition char := N.
Definition str := list char.

(** A Rocq string literal read as a Python string (one code point per byte;
    used for ASCII literals only). *)
Definition py (s : string) : str :=
  map N_of_ascii (list_ascii_of_string s).

Definition is_ascii (c : char) : bool := c <? 128.

Definition SPACE : char := 32.

Definition str_eqb (a b : str) : bool :=
  if list_eq_dec N.eq_dec a b then true else false.

(** ** What the notebook imports

    The functions below belong to CPython's Unicode database, NLTK and spaCy,
    not to the repository; the pipeline is stated over any behaviour of them.
    The Unicode tables are consulted on non-ASCII input only: on ASCII input
    the functions of this file compute what CPython does. *)

Record Token := { text : str; lemma_ : str }.

Class Externals := {
  (** category Nd, the non-ASCII characters [\d] matches *)
  uni_digit : char -> bool;
  (** [str.isalnum], the non-ASCII characters [\w] matches *)
  uni_alnum : char -> bool;
  (** [str.lower] on a string that is not pure ASCII *)
  uni_lower : str -> str;
  (** [unicodedata.normalize('NFKD', s)] on a string that is not pure ASCII *)
  uni_nfkd : str -> str;
  (** [nltk.corpus.stopwords.words('english')] *)
  stopword_list : list str;
  (** [ToktokTokenizer().tokenize] *)
  tokenize : str -> list str;
  (** [spacy.load("en_core_web_sm")], as the list of tokens of the document *)
  nlp : str -> list Token;
  (** [nlp.max_length]: [nlp(text)] raises [ValueError] (E088) for a text of
      more characters; [nlp] above is what the call returns otherwise *)
  max_length : N
}.

(** ** Character classes of [re] on [str] patterns *)

(** [\s]: the characters for which [str.isspace] holds. *)
Definition is_space (c : char) : bool :=
  ((9 <=? c) && (c <=? 13)) || ((28 <=? c) && (c <=? 32))
  || (c =? 133) || (c =? 160) || (c =? 5760)
  || ((8192 <=? c) && (c <=? 8202))
  || (c =? 8232) || (c =? 8233) || (c =? 8239) || (c =? 8287) || (c =? 12288).

Definition not_space (c : char) : bool := negb (is_space c).

Definition is_ascii_digit (c : char) : bool := (48 <=? c) && (c <=? 57).
Definition is_upper_az (c : char) : bool := (65 <=? c) && (c <=? 90).
Definition is_lower_az (c : char) : bool := (97 <=? c) && (c <=? 122).
Definition is_alpha_az (c : char) : bool := is_lower_az c || is_upper_az c.

Section Pipeline.

Context {X : Externals}.

(** [\d] *)
Definition is_digit (c : char) : bool :=
  if is_ascii c then is_ascii_digit c else uni_digit c.

(** [\w] *)
Definition is_word (c : char) : bool :=
  if is_ascii c then is_alpha_az c || is_ascii_digit c || (c =? 95)
  else uni_alnum c.

(** ** A backtracking matcher for the patterns of the notebook

    Greedy repetition is over a character class, which is all the notebook
    uses; alternation tries its left branch first. A cursor is the character
    before the position (for [\b]) and the text from the position on. *)

Inductive regex : Type :=
| Lit (l : str)
| Cls (p : char -> bool)
| Many (p : char -> bool)
| Many1 (p : char -> bool)
| WordB
| Cat (r1 r2 : regex)
| Alt (r1 r2 : regex).

Definition cursor := (option char * str)%type.

Fixpoint literal (l : str) (prev : option char) (s : str) : option cursor :=
  match l with
  | [] => Some (prev, s)
  | a :: l' =>
      match s with
      | c :: s' => if a =? c then literal l' (Some c) s' else None
      | [] => None
      end
  end.

Fixpoint greedy (p : char -> bool) (k : cursor -> option cursor)
    (prev : option char) (s : str) : option cursor :=
  match s with
  | c :: s' =>
      if p c then
        match greedy p k (Some c) s' with
        | Some r => Some r
        | None => k (prev, s)
        end
      else k (prev, s)
  | [] => k (prev, s)
  end.

Definition word_opt (c : option char) : bool :=
  match c with Some c => is_word c | None => false end.

Definition at_boundary (cur : cursor) : bool :=
  xorb (word_opt (fst cur)) (word_opt (hd_error (snd cur))).

Fixpoint sre_match (r : regex) (k : cursor -> option cursor) (cur : cursor)
    : option cursor :=
  match r with
  | Lit l =>
      match literal l (fst cur) (snd cur) with
      | Some cur' => k cur'
      | None => None
      end
  | Cls p =>
      match snd cur with
      | c :: s' => if p c then k (Some c, s') else None
      | [] => None
      end
  | Many p => greedy p k (fst cur) (snd cur)
  | Many1 p =>
      match snd cur with
      | c :: s' => if p c then greedy p k (Some c) s' else None
      | [] => None
      end
  | WordB => if at_boundary cur then k cur else None
  | Cat r1 r2 => sre_match r1 (sre_match r2 k) cur
  | Alt r1 r2 =>
      match sre_match r1 k cur with
      | Some x => Some x
      | None => sre_match r2 k cur
      end
  end.

(** The number of characters the pattern matches at the cursor, if it does. *)
Definition match_at (r : regex) (prev : option char) (s : str) : option nat :=
  match sre_match r Some (prev, s) with
  | Some (_, rest) => Some (length s - length rest)%nat
  | None => None
  end.

(** [re.sub(pattern, repl, string)]: leftmost matches, left to right, never
    overlapping; [repl] is given the matched text. [skip] counts the
    characters of the current match still to pass. No pattern of the
    notebook matches the empty string, so a match of no character is not
    looked for. *)
Fixpoint sub_from (r : regex) (repl : str -> str) (skip : nat)
    (prev : option char) (s : str) : str :=
  match s with
  | [] => []
  | c :: s' =>
      match skip with
      | S n => sub_from r repl n (Some c) s'
      | O =>
          match match_at r prev s with
          | Some (S n) => repl (firstn (S n) s) ++ sub_from r repl n (Some c) s'
          | _ => c :: sub_from r repl 0 (Some c) s'
          end
      end
  end.

Definition re_sub (r : regex) (repl : str -> str) (s : str) : str :=
  sub_from r repl 0 None s.

Definition chr (a : string) (c : char) : bool :=
  existsb (N.eqb c) (py a).

(** ** The cleaning functions *)

(** [\b[^\s]+@[^\s]+[.][^\s]+\b] *)
Definition email_re : regex :=
  Cat WordB (Cat (Many1 not_space) (Cat (Lit (py "@")) (Cat (Many1 not_space)
    (Cat (Cls (chr ".")) (Cat (Many1 not_space) WordB))))).

Definition remove_emails (text : str) : str :=
  re_sub email_re (fun _ => py " ") text.

(** [(http|https)://[^\s]*] *)
Definition hyperlink_re : regex :=
  Cat (Alt (Lit (py "http")) (Lit (py "https")))
    (Cat (Lit (py "://")) (Many not_space)).

Definition remove_hyperlink (text : str) : str :=
  re_sub hyperlink_re (fun _ => py " ") text.

(** [(\s\d+)] *)
Definition digits_re : regex := Cat (Cls is_space) (Many1 is_digit).

Definition remove_digits (text : str) : str :=
  re_sub digits_re (fun _ => py " ") text.

(** [[^a-zA-Z\s]] *)
Definition not_alpha_space (c : char) : bool :=
  negb (is_alpha_az c || is_space c).

Definition special_re : regex := Cls not_alpha_space.

Definition remove_special_characters (text : str) : str :=
  re_sub special_re (fun _ => py " ") text.

(** [unicodedata.normalize('NFKD', text)]: ASCII text is already normalised. *)
Definition normalize_NFKD (s : str) : str :=
  if forallb is_ascii s then s else uni_nfkd s.

(** [.encode('ascii', 'ignore')] drops what has no ASCII encoding; the bytes
    left are below 128, and [.decode('utf-8', 'ignore')] reads each of them
    as the code point of the same number. *)
Definition encode_ascii_ignore (s : str) : list N := filter is_ascii s.
Definition decode_utf8_ignore (b : list N) : str := b.

Definition remove_accented_chars (text : str) : str :=
  decode_utf8_ignore (encode_ascii_ignore (normalize_NFKD text)).

(** [str.lower]: CPython lowers an ASCII string byte by byte. *)
Definition ascii_lower (c : char) : char :=
  if is_upper_az c then c + 32 else c.

Definition lower (s : str) : str :=
  if forallb is_ascii s then map ascii_lower s else uni_lower s.

(** [str.strip()] *)
Fixpoint lstrip (s : str) : str :=
  match s with
  | c :: s' => if is_space c then lstrip s' else s
  | [] => []
  end.

Definition strip (s : str) : str := rev (lstrip (rev (lstrip s))).

(** [' '.join(tokens)] *)
Fixpoint join (sep : str) (l : list str) : str :=
  match l with
  | [] => []
  | [a] => a
  | a :: l' => a ++ sep ++ join sep l'
  end.

Definition in_list (t : str) (l : list str) : bool := existsb (str_eqb t) l.

Definition remove_stopwords (text : str) (is_lower_case : bool) : str :=
  let tokens := tokenize text in
  let tokens := map strip tokens in
  let filtered_tokens :=
    filter (fun token => negb (in_list (lower token) stopword_list)) tokens in
  join (py " ") filtered_tokens.

Definition PRON : str := py "-PRON-".

Definition lemmatize_text (doc : str) : str :=
  join (py " ")
    (map (fun word => if negb (str_eqb (lemma_ word) PRON)
                      then lemma_ word else text word)
         (nlp doc)).

(** [[\r|\n|\r\n]+]: a class of three characters, the bar among them. *)
Definition newline_class (c : char) : bool :=
  (c =? 13) || (c =? 124) || (c =? 10).

Definition newline_re : regex := Many1 newline_class.

(** [([{.(-)!}])]: inside the class, [(-)] is the range from ( to ). *)
Definition special_class (c : char) : bool :=
  (c =? 123) || (c =? 46) || ((40 <=? c) && (c <=? 41))
  || (c =? 33) || (c =? 125).

Definition special_char_pattern : regex := Cls special_class.

(** [ +] *)
Definition blank (c : char) : bool := c =? 32.

Definition spaces_re : regex := Many1 blank.

Record NormalizationConfig := {
  isRemoveEmail : bool;
  isRemoveDigits : bool;
  isRemoveHyperLink : bool;
  isRemoveSpecialCharac : bool;
  isRemoveAccentChar : bool;
  text_lower_case : bool;
  text_lemmatization : bool;
  stopword_removal : bool
}.

(** The body of the loop of [text_preprocessing], for one document. *)
Definition preprocess_doc (cfg : NormalizationConfig) (doc : str) : str :=
  let doc := if text_lower_case cfg then lower doc else doc in
  let doc := if isRemoveEmail cfg then remove_emails doc else doc in
  let doc := if isRemoveHyperLink cfg then remove_hyperlink doc else doc in
  let doc := if isRemoveAccentChar cfg then remove_accented_chars doc else doc in
  let doc := if isRemoveDigits cfg then remove_digits doc else doc in
  let doc := re_sub newline_re (fun _ => py " ") doc in
  let doc := re_sub special_char_pattern (fun m => py " " ++ m ++ py " ") doc in
  let doc := if text_lemmatization cfg then lemmatize_text doc else doc in
  let doc := if isRemoveSpecialCharac cfg
             then remove_special_characters doc else doc in
  let doc := re_sub spaces_re (fun _ => py " ") doc in
  let doc := if stopword_removal cfg
             then remove_stopwords doc (text_lower_case cfg) else doc in
  doc.

(** [text_preprocessing]: the loop appends each cleaned document in turn. *)
Definition text_preprocessing (corpus : list str) (cfg : NormalizationConfig)
    : list str :=
  fold_left (fun normalized_corpus doc =>
               normalized_corpus ++ [preprocess_doc cfg doc])
            corpus [].

End Pipeline.

(** ** The calls that can raise

    The functions above give what each call returns when it returns. Of the
    calls of the loop, the substitutions of [re], [str.lower], the codecs
    with [ignore] and the tokenizer return for every string; [nlp(text)]
    raises [ValueError] for a text of more than [nlp.max_length] characters.
    The functions below thread that error through the loop: an exception in
    one document ends the call of [text_preprocessing] for the whole
    corpus. *)

Inductive exception := ValueError.

Inductive outcome (A : Type) := Returns (a : A) | Raises (e : exception).

Arguments Raises {A} e.

Definition bind (A B : Type) (c : outcome A) (k : A -> outcome B) : outcome B :=
  match c with
  | Returns a => k a
  | Raises e => Raises e
  end.

Notation "x <- c ;; k" := (bind c (fun x => k))
  (at level 61, c at next level, right associativity).

Section Calls.

Context {X : Externals}.

(** [nlp(text)] *)
Definition nlp_call (doc : str) : outcome (list Token) :=
  if max_length <? N.of_nat (length doc) then Raises ValueError
  else Returns (nlp doc).

Definition lemmatize_text_call (doc : str) : outcome str :=
  words <- nlp_call doc ;;
  Returns (join (py " ")
             (map (fun word => if negb (str_eqb (lemma_ word) PRON)
                               then lemma_ word else text word)
                  words)).

(** The body of the loop of [text_preprocessing], with the error of the
    lemmatizer. *)
Definition preprocess_doc_call (cfg : NormalizationConfig) (doc : str)
    : outcome str :=
  let doc := if text_lower_case cfg then lower doc else doc in
  let doc := if isRemoveEmail cfg then remove_emails doc else doc in
  let doc := if isRemoveHyperLink cfg then remove_hyperlink doc else doc in
  let doc := if isRemoveAccentChar cfg then remove_accented_chars doc else doc in
  let doc := if isRemoveDigits cfg then remove_digits doc else doc in
  let doc := re_sub newline_re (fun _ => py " ") doc in
  let doc := re_sub special_char_pattern (fun m => py " " ++ m ++ py " ") doc in
  doc <- (if text_lemmatization cfg then lemmatize_text_call doc
          else Returns doc) ;;
  let doc := if isRemoveSpecialCharac cfg
             then remove_special_characters doc else doc in
  let doc := re_sub spaces_re (fun _ => py " ") doc in
  let doc := if stopword_removal cfg
             then remove_stopwords doc (text_lower_case cfg) else doc in
  Returns doc.

(** The loop: the first document that raises ends it, and nothing is
    returned. *)
Fixpoint text_preprocessing_loop (cfg : NormalizationConfig)
    (corpus normalized_corpus : list str) : outcome (list str) :=
  match corpus with
  | [] => Returns normalized_corpus
  | doc :: corpus' =>
      doc <- preprocess_doc_call cfg doc ;;
      text_preprocessing_loop cfg corpus' (normalized_corpus ++ [doc])
  end.

Definition text_preprocessing_call (corpus : list str)
    (cfg : NormalizationConfig) : outcome (list str) :=
  text_preprocessing_loop cfg corpus [].

End Calls.

(** ** The data-preparation cells *)

(** The frame after [df.columns = ['label', 'sentence']]. *)
Record Row := { label : str; sentence : str }.

(** [max_len = 64], the length the classifier is traced with. *)
Definition max_len : nat := 64.

(** [df['sentence'].str[:63]] *)
Definition str_slice_63 (s : str) : str := firstn 63 s.

Section Cleaning.

Context {X : Externals}.

(** [df['sentence'] = clean_headline] followed by the slice: the cleaned,
    cut sentence of every row, the labels untouched. *)
Definition clean_frame (cfg : NormalizationConfig) (df : list Row) : list Row :=
  let clean_headline := text_preprocessing (map sentence df) cfg in
  map (fun '(r, s) => {| label := label r; sentence := str_slice_63 s |})
      (combine df clean_headline).

End Cleaning.

(** *** [LabelEncoder]

    scikit-learn's encoder: [classes_] is the sorted array of the distinct
    labels, and a label is encoded as its position in it. Strings compare
    by code point. *)

Fixpoint str_compare (a b : str) : comparison :=
  match a, b with
  | [], [] => Eq
  | [], _ :: _ => Lt
  | _ :: _, [] => Gt
  | x :: a', y :: b' =>
      match x ?= y with
      | Eq => str_compare a' b'
      | c => c
      end
  end.

Fixpoint insert_unique (x : str) (l : list str) : list str :=
  match l with
  | [] => [x]
  | y :: l' =>
      match str_compare x y with
      | Lt => x :: l
      | Eq => l
      | Gt => y :: insert_unique x l'
      end
  end.

(** [np.unique] *)
Definition unique (y : list str) : list str := fold_right insert_unique [] y.

Fixpoint index_of (x : str) (l : list str) : nat :=
  match l with
  | [] => O
  | y :: l' => if str_eqb x y then O else S (index_of x l')
  end.

Definition fit_transform (y : list str) : list nat :=
  let classes_ := unique y in
  map (fun l => index_of l classes_) y.

(** [drop_duplicates(subset=None, keep='first')] on the two-column frame *)
Definition pair_eqb (a b : nat * str) : bool :=
  Nat.eqb (fst a) (fst b) && str_eqb (snd a) (snd b).

Fixpoint drop_duplicates (seen rows : list (nat * str)) : list (nat * str) :=
  match rows with
  | [] => []
  | r :: rows' =>
      if existsb (pair_eqb r) seen then drop_duplicates seen rows'
      else r :: drop_duplicates (r :: seen) rows'
  end.

(** [sort_values(by=['label_enc'])]; the keys of the frame it sorts are
    distinct, so the order does not depend on the sorting algorithm. *)
Fixpoint insert_by_enc (r : nat * str) (l : list (nat * str)) : list (nat * str) :=
  match l with
  | [] => [r]
  | r' :: l' =>
      if Nat.leb (fst r) (fst r') then r :: l else r' :: insert_by_enc r l'
  end.

Definition sort_values (rows : list (nat * str)) : list (nat * str) :=
  fold_right insert_by_enc [] rows.

(** The rows written to [category_map.csv], header [label_enc,label]. *)
Definition category_map (df : list Row) : list (nat * str) :=
  let label_enc := fit_transform (map label df) in
  let df_map := combine label_enc (map label df) in
  let df_map := drop_duplicates [] df_map in
  sort_values df_map.

(** Modelled from the spec: the notebook writes the mapping and never reads
    it back; decoding a class index is the look-up of its row in the file. *)
Fixpoint decode (file : list (nat * str)) (i : nat) : option str :=
  match file with
  | [] => None
  | (e, l) :: file' => if Nat.eqb e i then Some l else decode file' i
  end.

(** *** Dropping the label text, and the empty sentences *)

Inductive cell := Str (s : str) | NaN.

(** The frame after [df.drop(['label'])] and
    [df.columns = ['sentence', 'label']]: the label is now its code. *)
Record Sample := { sample_sentence : cell; sample_label : nat }.

Definition encode_frame (df : list Row) : list Sample :=
  map (fun '(r, e) => {| sample_sentence := Str (sentence r); sample_label := e |})
      (combine df (fit_transform (map label df))).

(** [df.replace("", nan_value)]: the label column holds integers. *)
Definition replace_empty (df : list Sample) : list Sample :=
  map (fun r => match sample_sentence r with
                | Str [] => {| sample_sentence := NaN; sample_label := sample_label r |}
                | _ => r
                end) df.

(** [df.dropna(subset=["sentence"])] *)
Definition dropna (df : list Sample) : list Sample :=
  filter (fun r => match sample_sentence r with NaN => false | Str _ => true end) df.

(** *** [train_test_split(df)]

    scikit-learn's split with its defaults: a quarter of the rows, rounded
    up, is held out ([ceil(0.25 * n)], which is [(n + 3) / 4]); the split
    refuses (ValueError) to leave the training set empty; the rows are taken
    at the indices of a random permutation, the held-out ones first.
    [permutation] is the draw of the generator; an index outside the frame
    would raise, and no result is returned for it. *)

Fixpoint iloc (A : Type) (df : list A) (ind : list nat) : option (list A) :=
  match ind with
  | [] => Some []
  | i :: ind' =>
      match nth_error df i, iloc df ind' with
      | Some r, Some rs => Some (r :: rs)
      | _, _ => None
      end
  end.

Definition train_test_split (A : Type) (permutation : list nat) (df : list A)
    : option (list A * list A) :=
  let n_samples := length df in
  let n_test := ((n_samples + 3) / 4)%nat in
  let n_train := (n_samples - n_test)%nat in
  if Nat.eqb n_train 0 then None
  else
    let ind_test := firstn n_test permutation in
    let ind_train := firstn n_train (skipn n_test permutation) in
    match iloc df ind_train, iloc df ind_test with
    | Some train, Some test => Some (train, test)
    | _, _ => None
    end.

(** ** The pipeline as the specification words it

    An ordered list of toggle-guarded operations, applied by a fold. *)

Section StageList.

Context {X : Externals}.

Definition operations : list (str -> str) :=
  [ lower;
    remove_emails;
    remove_hyperlink;
    remove_accented_chars;
    remove_digits;
    re_sub newline_re (fun _ => py " ");
    re_sub special_char_pattern (fun m => py " " ++ m ++ py " ");
    lemmatize_text;
    remove_special_characters;
    re_sub spaces_re (fun _ => py " ");
    fun doc => remove_stopwords doc true ].

Definition toggles (cfg : NormalizationConfig) : list bool :=
  [ text_lower_case cfg;
    isRemoveEmail cfg;
    isRemoveHyperLink cfg;
    isRemoveAccentChar cfg;
    isRemoveDigits cfg;
    true;
    true;
    text_lemmatization cfg;
    isRemoveSpecialCharac cfg;
    true;
    stopword_removal cfg ].

Definition apply_stage (doc : str) (st : bool * (str -> str)) : str :=
  if fst st then snd st doc else doc.

Definition run_stages (cfg : NormalizationConfig) (doc : str) : str :=
  fold_left apply_stage (combine (toggles cfg) operations) doc.

(** The whole preparation up to the split. *)
Definition final_frame (cfg : NormalizationConfig) (df : list Row) : list Sample :=
  dropna (replace_empty (encode_frame (clean_frame cfg df))).

End StageList.

Definition nonempty_sentence (r : Sample) : bool :=
  match sample_sentence r with
  | Str [] => false
  | Str (_ :: _) => true
  | NaN => false
  end.

(** ** Auxiliary definitions

    Orders, predicates and reference readings the properties are stated
    with, and a stand-in for the libraries to run the pipeline on. *)

Definition lt_str (a b : str) : Prop := str_compare a b = Lt.

Definition lt_enc (a b : nat * str) : Prop := (fst a < fst b)%nat.

Definition last_char (prev : option char) (m : str) : option char :=
  fold_left (fun _ c => Some c) m prev.

(** [str.startswith] *)
Fixpoint starts_with (l s : str) : bool :=
  match l with
  | [] => true
  | a :: l' =>
      match s with
      | c :: s' => (a =? c) && starts_with l' s'
      | [] => false
      end
  end.

(** The length of the longest prefix of [s] inside the class [p]. *)
Fixpoint run (p : char -> bool) (s : str) : nat :=
  match s with
  | c :: s' => if p c then S (run p s') else O
  | [] => O
  end.

(** The least number of characters a match of the pattern holds. *)
Fixpoint min_len `{Externals} (r : regex) : nat :=
  match r with
  | Lit l => length l
  | Cls _ => 1
  | Many _ => 0
  | Many1 _ => 1
  | WordB => 0
  | Cat r1 r2 => min_len r1 + min_len r2
  | Alt r1 r2 => Nat.min (min_len r1) (min_len r2)
  end.

(** The pattern matches nowhere in [s], whose left neighbour is [prev]. *)
Definition no_match `{Externals} (r : regex) (prev : option char) (s : str) : Prop :=
  forall a b, s = a ++ b -> match_at r (last_char prev a) b = None.

(** The literal [l] occurs nowhere in [s]. *)
Definition no_occ (l s : str) : Prop :=
  forall a b, s = a ++ b -> starts_with l b = false.

(** [re.sub(p+, ' ', s)] for a class [p]: every run of [p] becomes one
    space. [in_run] says that the run has begun. *)
Fixpoint squeeze (p : char -> bool) (in_run : bool) (s : str) : str :=
  match s with
  | [] => []
  | c :: s' =>
      if p c then
        if in_run then squeeze p true s' else SPACE :: squeeze p true s'
      else c :: squeeze p false s'
  end.

(** The digit removal read as a scan: a whitespace character followed by a
    digit is replaced, with the whole run of digits after it, by one space;
    everything else is copied. [in_run] says that the scan is inside such a
    run. *)
Fixpoint strip_spaced_digits `{Externals} (in_run : bool) (s : str) : str :=
  match s with
  | [] => []
  | c :: s' =>
      if in_run && is_digit c then strip_spaced_digits true s'
      else if is_space c
              && match s' with d :: _ => is_digit d | [] => false end
           then SPACE :: strip_spaced_digits true s'
           else c :: strip_spaced_digits false s'
  end.

(** Some whitespace character of [s] has a digit right after it. *)
Fixpoint spaced_digit `{Externals} (s : str) : bool :=
  match s with
  | c :: s' =>
      (is_space c && match s' with d :: _ => is_digit d | [] => false end)
      || spaced_digit s'
  | [] => false
  end.

(** The no-match test, position by position (the end of the text included). *)
Fixpoint matches_nowhere `{Externals} (r : regex) (prev : option char) (s : str)
    : bool :=
  match match_at r prev s with
  | Some _ => false
  | None =>
      match s with
      | [] => true
      | c :: s' => matches_nowhere r (Some c) s'
      end
  end.

Definition link_start (s : str) : bool :=
  starts_with (py "http://") s || starts_with (py "https://") s.

(** What precedes the position in a cleaned document: a character of text, a
    space, or a special character (which a space must follow). *)
Inductive gap := Text | Space | Special.

(** A document in which no two spaces are adjacent and every special
    character stands between two spaces. *)
Fixpoint norm (g : gap) (o : str) : bool :=
  match o with
  | [] => match g with Special => false | _ => true end
  | c :: o' =>
      match g with
      | Special => blank c && norm Space o'
      | _ =>
          if blank c then
            match g with Space => false | _ => norm Space o' end
          else if special_class c then
            match g with Space => norm Special o' | _ => false end
          else norm Text o'
      end
  end.

Definition spacing (c : char) : str :=
  if special_class c then py " " ++ [c] ++ py " " else [c].

Definition barrier (c : char) : bool := blank c || special_class c.

(** What a first pass with lemmas and stopwords off leaves behind. *)
Definition cleaned (cfg : NormalizationConfig) (o : str) : Prop :=
  Forall (fun c => is_ascii c = true
                   /\ (text_lower_case cfg = true -> is_upper_az c = false)) o
  /\ Forall (fun c => newline_class c = false) o
  /\ (isRemoveHyperLink cfg = true ->
      no_occ (py "http://") o /\ no_occ (py "https://") o)
  /\ (if isRemoveSpecialCharac cfg
      then Forall (fun c => is_alpha_az c || is_space c = true) o
           /\ squeeze blank false o = o
      else norm Text o = true).

(** [str.split()]: the maximal runs of characters that are not whitespace. *)
Fixpoint split_from (word : str) (s : str) : list str :=
  match s with
  | [] => match word with [] => [] | _ => [word] end
  | c :: s' =>
      if is_space c then
        match word with
        | [] => split_from [] s'
        | _ => word :: split_from [] s'
        end
      else split_from (word ++ [c]) s'
  end.

Definition split (s : str) : list str := split_from [] s.

(** The literal [l] starts at no position of [s]. *)
Fixpoint occurs_nowhere (l s : str) : bool :=
  negb (starts_with l s)
  && match s with
     | [] => true
     | _ :: s' => occurs_nowhere l s'
     end.

Definition all_on : NormalizationConfig :=
  {| isRemoveEmail := true; isRemoveDigits := true; isRemoveHyperLink := true;
     isRemoveSpecialCharac := true; isRemoveAccentChar := true;
     text_lower_case := true; text_lemmatization := true;
     stopword_removal := true |}.

Definition all_off : NormalizationConfig :=
  {| isRemoveEmail := false; isRemoveDigits := false;
     isRemoveHyperLink := false; isRemoveSpecialCharac := false;
     isRemoveAccentChar := false; text_lower_case := false;
     text_lemmatization := false; stopword_removal := false |}.

Definition only_lemmas : NormalizationConfig :=
  {| isRemoveEmail := false; isRemoveDigits := false;
     isRemoveHyperLink := false; isRemoveSpecialCharac := false;
     isRemoveAccentChar := false; text_lower_case := false;
     text_lemmatization := true; stopword_removal := false |}.

(** The text the loop hands to [lemmatize_text] when lemmatization is on:
    the document after the seven stages before it. *)
Definition lemmatizer_input `{Externals} (cfg : NormalizationConfig)
    (doc : str) : str :=
  let doc := if text_lower_case cfg then lower doc else doc in
  let doc := if isRemoveEmail cfg then remove_emails doc else doc in
  let doc := if isRemoveHyperLink cfg then remove_hyperlink doc else doc in
  let doc := if isRemoveAccentChar cfg then remove_accented_chars doc else doc in
  let doc := if isRemoveDigits cfg then remove_digits doc else doc in
  let doc := re_sub newline_re (fun _ => py " ") doc in
  re_sub special_char_pattern (fun m => py " " ++ m ++ py " ") doc.

(** Whether the loop body returns for a document. *)
Definition accepted `{Externals} (cfg : NormalizationConfig) (doc : str)
    : bool :=
  negb (text_lemmatization cfg
        && (max_length <? N.of_nat (length (lemmatizer_input cfg doc)))).

Definition only_digits : NormalizationConfig :=
  {| isRemoveEmail := false; isRemoveDigits := true; isRemoveHyperLink := false;
     isRemoveSpecialCharac := false; isRemoveAccentChar := false;
     text_lower_case := false; text_lemmatization := false;
     stopword_removal := false |}.

Definition lower_and_accents : NormalizationConfig :=
  {| isRemoveEmail := false; isRemoveDigits := false;
     isRemoveHyperLink := false; isRemoveSpecialCharac := false;
     isRemoveAccentChar := true; text_lower_case := true;
     text_lemmatization := false; stopword_removal := false |}.

(** The configuration of the notebook without its stopword removal. *)
Definition notebook_cleaners : NormalizationConfig :=
  {| isRemoveEmail := true; isRemoveDigits := true; isRemoveHyperLink := true;
     isRemoveSpecialCharac := true; isRemoveAccentChar := true;
     text_lower_case := true; text_lemmatization := false;
     stopword_removal := false |}.

Definition spec_example : str :=
  py "Contact me at a@b.com or visit http://x.com!!! 2 cats".

(** NLTK's English stopword list, the 179 words of the corpus. *)
Definition english_stopwords : list str :=
  map py
    [ "i"; "me"; "my"; "myself"; "we"; "our"; "ours"; "ourselves"; "you";
      "you're"; "you've"; "you'll"; "you'd"; "your"; "yours"; "yourself";
      "yourselves"; "he"; "him"; "his"; "himself"; "she"; "she's"; "her";
      "hers"; "herself"; "it"; "it's"; "its"; "itself"; "they"; "them";
      "their"; "theirs"; "themselves"; "what"; "which"; "who"; "whom";
      "this"; "that"; "that'll"; "these"; "those"; "am"; "is"; "are"; "was";
      "were"; "be"; "been"; "being"; "have"; "has"; "had"; "having"; "do";
      "does"; "did"; "doing"; "a"; "an"; "the"; "and"; "but"; "if"; "or";
      "because"; "as"; "until"; "while"; "of"; "at"; "by"; "for"; "with";
      "about"; "against"; "between"; "into"; "through"; "during"; "before";
      "after"; "above"; "below"; "to"; "from"; "up"; "down"; "in"; "out";
      "on"; "off"; "over"; "under"; "again"; "further"; "then"; "once";
      "here"; "there"; "when"; "where"; "why"; "how"; "all"; "any"; "both";
      "each"; "few"; "more"; "most"; "other"; "some"; "such"; "no"; "nor";
      "not"; "only"; "own"; "same"; "so"; "than"; "too"; "very"; "s"; "t";
      "can"; "will"; "just"; "don"; "don't"; "should"; "should've"; "now";
      "d"; "ll"; "m"; "o"; "re"; "ve"; "y"; "ain"; "aren"; "aren't";
      "couldn"; "couldn't"; "didn"; "didn't"; "doesn"; "doesn't"; "hadn";
      "hadn't"; "hasn"; "hasn't"; "haven"; "haven't"; "isn"; "isn't"; "ma";
      "mightn"; "mightn't"; "mustn"; "mustn't"; "needn"; "needn't"; "shan";
      "shan't"; "shouldn"; "shouldn't"; "wasn"; "wasn't"; "weren";
      "weren't"; "won"; "won't"; "wouldn"; "wouldn't" ]%string.

(** A stand-in for the libraries, enough to run the pipeline on ASCII text:
    no Unicode tables, the tokenizer's final whitespace split, and a
    lemmatizer that knows the two words of the example. *)
Definition toy_lemma (w : str) : str :=
  if str_eqb w (py "cats") then py "cat"
  else if str_eqb w (py "me") then py "-PRON-"
  else w.

Definition sample_externals : Externals :=
  {| uni_digit := fun _ => false;
     uni_alnum := fun _ => false;
     uni_lower := fun s => s;
     uni_nfkd := fun s => s;
     stopword_list := english_stopwords;
     tokenize := split;
     nlp := fun doc =>
              map (fun w => {| text := w; lemma_ := toy_lemma w |}) (split doc);
     max_length := 1000000 |}.

(** [str.replace(old, new)] for an [old] of one character. *)
Definition replace_char (old : char) (new : str) (s : str) : str :=
  flat_map (fun c => if c =? old then new else [c]) s.

(** The name of the endpoint:
    ['bert-ei-traced-{}-{}-{}'.format(instance_type, accelerator_type,
    time.time()).replace('.', '').replace('_', '')], where [now] is the text
    of [time.time()]. *)
Definition endpoint_name (instance_type accelerator_type now : str) : str :=
  replace_char 95 []
    (replace_char 46 []
       (py "bert-ei-traced-" ++ instance_type ++ py "-" ++ accelerator_type
          ++ py "-" ++ now)).

(** The first character of a text is a digit. *)
Definition digit_first `{Externals} (s : str) : bool :=
  match s with d :: _ => is_digit d | [] => false end.

(** The row of the final frame that a row of the raw frame becomes. *)
Definition sample_of `{Externals} (cfg : NormalizationConfig)
    (classes_ : list str) (r : Row) : Sample :=
  {| sample_sentence := Str (str_slice_63 (preprocess_doc cfg (sentence r)));
     sample_label := index_of (label r) classes_ |}.

(** * Properties *)

(** Arithmetic on character codes, by the class definitions. *)
Ltac char_lia :=
  unfold not_alpha_space, not_space, is_alpha_az, ascii_lower, is_ascii,
    is_space, is_ascii_digit, is_upper_az, is_lower_az, newline_class,
    special_class, blank in *;
  repeat rewrite ?negb_true_iff, ?negb_false_iff, ?orb_true_iff,
    ?orb_false_iff, ?andb_true_iff, ?andb_false_iff, ?N.leb_le, ?N.leb_gt,
    ?N.ltb_lt, ?N.ltb_ge, ?N.eqb_eq, ?N.eqb_neq in *;
  try lia.

(** ** The order of the stages *)

Section StageOrder.

Context {X : Externals}.

Lemma text_preprocessing_acc (cfg : NormalizationConfig) (corpus acc : list str) :
  fold_left (fun normalized_corpus doc =>
               normalized_corpus ++ [preprocess_doc cfg doc]) corpus acc
  = acc ++ map (preprocess_doc cfg) corpus.
Proof.
  revert acc; induction corpus as [|d corpus IH]; intros acc; simpl.
  - now rewrite app_nil_r.
  - rewrite IH, <- app_assoc. reflexivity.
Qed.

Lemma text_preprocessing_map (cfg : NormalizationConfig) (corpus : list str) :
  text_preprocessing corpus cfg = map (preprocess_doc cfg) corpus.
Proof. unfold text_preprocessing. now rewrite text_preprocessing_acc. Qed.

Lemma preprocess_doc_run_stages (cfg : NormalizationConfig) (doc : str) :
  preprocess_doc cfg doc = run_stages cfg doc.
Proof. destruct cfg as [[] [] [] [] [] [] [] []]; reflexivity. Qed.

(** C1. For every document and every setting of the eight toggles,
    [text_preprocessing] is the fold of the eleven operations, in the one
    order lower, emails, hyperlinks, accents, digits, newlines, spacing of
    special characters, lemmas, special characters, spaces, stopwords, over the
    document; the list of operations does not mention the configuration, an
    operation whose toggle is false leaves the document as it is, and the
    three operations without a toggle are always applied. *)
Theorem stage_order_fixed (cfg : NormalizationConfig) (corpus : list str) :
  text_preprocessing corpus cfg
  = map (fun doc => fold_left apply_stage (combine (toggles cfg) operations) doc)
        corpus
  /\ toggles cfg
     = [ text_lower_case cfg; isRemoveEmail cfg; isRemoveHyperLink cfg;
         isRemoveAccentChar cfg; isRemoveDigits cfg; true; true;
         text_lemmatization cfg; isRemoveSpecialCharac cfg; true;
         stopword_removal cfg ]
  /\ (forall (f : str -> str) (doc : str), apply_stage doc (false, f) = doc)
  /\ (forall (f : str -> str) (doc : str), apply_stage doc (true, f) = f doc).
Proof.
  split; [|split; [reflexivity|split; reflexivity]].
  rewrite text_preprocessing_map. apply map_ext. intros doc.
  apply preprocess_doc_run_stages.
Qed.

(** C10. The output of [remove_stopwords] does not depend on its
    [is_lower_case] argument. *)
Theorem remove_stopwords_ignores_flag (doc : str) (b1 b2 : bool) :
  remove_stopwords doc b1 = remove_stopwords doc b2.
Proof. reflexivity. Qed.

(** ** The cut to 63 characters *)

Lemma clean_frame_sentences (cfg : NormalizationConfig) (df : list Row) :
  map sentence (clean_frame cfg df)
  = map (fun r => str_slice_63 (preprocess_doc cfg (sentence r))) df.
Proof.
  unfold clean_frame. rewrite text_preprocessing_map.
  induction df as [|r df IH]; simpl; [reflexivity|]. now rewrite IH.
Qed.

Lemma clean_frame_labels (cfg : NormalizationConfig) (df : list Row) :
  map label (clean_frame cfg df) = map label df.
Proof.
  unfold clean_frame. rewrite text_preprocessing_map.
  induction df as [|r df IH]; simpl; [reflexivity|]. now rewrite IH.
Qed.

(** C2. The sentence kept for a row is the prefix of at most 63 characters
    of the fully cleaned document: the cut comes after every cleaning stage,
    counts characters (a token of 70 letters is cut to its first 63), and the
    result is never longer than the maximum of 64. *)
Theorem truncation_after_cleaning (cfg : NormalizationConfig) (df : list Row) :
  map sentence (clean_frame cfg df)
  = map (fun r => firstn 63 (preprocess_doc cfg (sentence r))) df
  /\ Forall (fun r => (length (sentence r) <= 63)%nat
                      /\ (length (sentence r) <= max_len)%nat)
            (clean_frame cfg df)
  /\ str_slice_63 (repeat 97 70) = repeat 97 63.
Proof.
  split; [apply clean_frame_sentences|split; [|reflexivity]].
  assert (H : Forall (fun s : str => (length s <= 63)%nat)
                (map sentence (clean_frame cfg df))).
  { rewrite clean_frame_sentences. apply Forall_forall. intros s Hs.
    apply in_map_iff in Hs. destruct Hs as [r [<- _]].
    unfold str_slice_63. apply firstn_le_length. }
  rewrite Forall_map in H. eapply Forall_impl; [|exact H].
  intros r Hr. unfold max_len. simpl in *. lia.
Qed.

End StageOrder.

(** ** Empty sentences *)

Lemma str_slice_63_empty (s : str) : str_slice_63 s = [] <-> s = [].
Proof.
  unfold str_slice_63. destruct s; simpl; split; intros H;
    try reflexivity; discriminate.
Qed.

Lemma dropna_replace_empty (df : list Sample) :
  dropna (replace_empty df) = filter nonempty_sentence df.
Proof.
  unfold dropna, replace_empty, nonempty_sentence.
  induction df as [|r df IH]; [reflexivity|].
  simpl. rewrite IH.
  destruct r as [[[|c s]|] e]; reflexivity.
Qed.

Lemma encode_frame_sentences (df : list Row) :
  map sample_sentence (encode_frame df) = map (fun r => Str (sentence r)) df.
Proof.
  unfold encode_frame, fit_transform.
  generalize (unique (map label df)). intros cl.
  induction df as [|r df IH]; simpl; [reflexivity|]. now rewrite IH.
Qed.

Section EmptySentences.

Context {X : Externals}.

(** C8. The frame that reaches the split is the encoded, cleaned frame
    without the rows whose sentence is the empty string, in the same order:
    such a row becomes a missing value and is dropped, every other row is
    kept as it is, and a sentence is empty after the cut exactly when the
    cleaned document is empty. *)
Theorem empty_sentences_dropped (cfg : NormalizationConfig) (df : list Row) :
  final_frame cfg df
  = filter nonempty_sentence (encode_frame (clean_frame cfg df))
  /\ map sample_sentence (encode_frame (clean_frame cfg df))
     = map (fun r => Str (str_slice_63 (preprocess_doc cfg (sentence r)))) df
  /\ (forall doc, str_slice_63 (preprocess_doc cfg doc) = []
                  <-> preprocess_doc cfg doc = [])
  /\ Forall (fun r => exists c s, sample_sentence r = Str (c :: s))
            (final_frame cfg df).
Proof.
  assert (E : final_frame cfg df
              = filter nonempty_sentence (encode_frame (clean_frame cfg df))).
  { unfold final_frame. apply dropna_replace_empty. }
  split; [exact E|]. split; [|split].
  - rewrite encode_frame_sentences.
    rewrite <- (map_map sentence Str), clean_frame_sentences, map_map.
    reflexivity.
  - intros doc. apply str_slice_63_empty.
  - rewrite E. apply Forall_forall. intros r Hr.
    apply filter_In in Hr. destruct Hr as [_ Hr].
    unfold nonempty_sentence in Hr.
    destruct (sample_sentence r) as [[|c s]|]; try discriminate.
    now exists c, s.
Qed.

End EmptySentences.

(** ** The split *)

Lemma iloc_map (A : Type) (d : A) (df : list A) (ind : list nat) :
  Forall (fun i => (i < length df)%nat) ind ->
  iloc df ind = Some (map (fun i => nth i df d) ind).
Proof.
  induction ind as [|i ind IH]; intros H; [reflexivity|].
  inversion H as [|? ? Hi Hind]; subst. simpl. rewrite (IH Hind).
  destruct (nth_error df i) as [r|] eqn:E.
  - now rewrite (nth_error_nth _ _ d E).
  - apply nth_error_None in E. lia.
Qed.

Lemma map_nth_all (A : Type) (d : A) (l : list A) :
  map (fun i => nth i l d) (seq 0 (length l)) = l.
Proof.
  induction l as [|a l IH]; [reflexivity|].
  simpl. f_equal. rewrite <- seq_shift, map_map. exact IH.
Qed.

Lemma in_firstn (A : Type) (n : nat) (l : list A) (x : A) :
  In x (firstn n l) -> In x l.
Proof.
  intros H. rewrite <- (firstn_skipn n l). apply in_or_app. now left.
Qed.

Lemma in_skipn (A : Type) (n : nat) (l : list A) (x : A) :
  In x (skipn n l) -> In x l.
Proof.
  intros H. rewrite <- (firstn_skipn n l). apply in_or_app. now right.
Qed.

Lemma held_out_size (n : nat) : (2 <= n -> (n + 3) / 4 < n)%nat.
Proof.
  intros H. apply Nat.Div0.div_lt_upper_bound. lia.
Qed.

(** C7, as the code has it. For a frame of at least two rows and any
    permutation the generator draws, [train_test_split] returns a training
    and a held-out part whose sizes add up to the number of rows and which
    together hold every row exactly once (the held-out part is a quarter of
    the rows, rounded up). *)
Theorem split_is_partition (A : Type) (permutation : list nat) (df : list A) :
  (2 <= length df)%nat ->
  Permutation permutation (seq 0 (length df)) ->
  exists train test,
    train_test_split permutation df = Some (train, test)
    /\ (length train + length test = length df)%nat
    /\ length test = ((length df + 3) / 4)%nat
    /\ Permutation (train ++ test) df.
Proof.
  intros Hn Hp. destruct df as [|d df']; [simpl in Hn; lia|].
  set (df := d :: df') in *. set (n := length df) in *.
  assert (Hlt := held_out_size Hn). fold n in Hlt.
  set (n_test := ((n + 3) / 4)%nat) in *.
  assert (Hlen : length permutation = n).
  { rewrite (Permutation_length Hp). apply length_seq. }
  assert (Hin : Forall (fun i => (i < length df)%nat) permutation).
  { apply Forall_forall. intros i Hi.
    apply (Permutation_in _ Hp) in Hi. apply in_seq in Hi. fold n. lia. }
  assert (Htest : Forall (fun i => (i < length df)%nat) (firstn n_test permutation)).
  { apply Forall_forall. intros i Hi. rewrite Forall_forall in Hin.
    apply Hin. now apply in_firstn in Hi. }
  assert (Htrain : Forall (fun i => (i < length df)%nat)
                     (firstn (n - n_test) (skipn n_test permutation))).
  { apply Forall_forall. intros i Hi. rewrite Forall_forall in Hin.
    apply Hin. apply in_firstn in Hi. now apply in_skipn in Hi. }
  assert (Hall : firstn (n - n_test) (skipn n_test permutation)
                 = skipn n_test permutation).
  { apply firstn_all2. rewrite length_skipn. lia. }
  exists (map (fun i => nth i df d) (firstn (n - n_test) (skipn n_test permutation))),
         (map (fun i => nth i df d) (firstn n_test permutation)).
  split; [|split; [|split]].
  - unfold train_test_split. fold n. fold n_test.
    destruct (Nat.eqb_spec (n - n_test) 0) as [E|_]; [lia|].
    now rewrite (@iloc_map _ d _ _ Htrain), (@iloc_map _ d _ _ Htest).
  - rewrite !length_map, Hall, length_skipn, length_firstn. lia.
  - rewrite length_map, length_firstn. fold n. lia.
  - rewrite Hall. etransitivity; [apply Permutation_app_comm|].
    rewrite <- map_app, firstn_skipn.
    etransitivity; [apply Permutation_map, Hp|].
    unfold n. rewrite map_nth_all. reflexivity.
Qed.

(** ** The label encoder *)

Lemma str_eqb_eq (a b : str) : str_eqb a b = true <-> a = b.
Proof.
  unfold str_eqb. destruct (list_eq_dec N.eq_dec a b); split; intros H;
    try reflexivity; try assumption; try discriminate; contradiction.
Qed.

Lemma str_eqb_refl (a : str) : str_eqb a a = true.
Proof. now apply str_eqb_eq. Qed.

Lemma str_compare_eq (a b : str) : str_compare a b = Eq -> a = b.
Proof.
  revert b; induction a as [|x a IH]; intros [|y b] H; simpl in H;
    try reflexivity; try discriminate.
  destruct (N.compare_spec x y) as [E|E|E]; try discriminate.
  subst. f_equal. now apply IH.
Qed.

Lemma str_compare_refl (a : str) : str_compare a a = Eq.
Proof.
  induction a as [|x a IH]; [reflexivity|]. simpl. now rewrite N.compare_refl.
Qed.

Lemma str_compare_gt_lt (a b : str) :
  str_compare a b = Gt -> str_compare b a = Lt.
Proof.
  revert b; induction a as [|x a IH]; intros [|y b] H; simpl in *;
    try reflexivity; try discriminate.
  rewrite (N.compare_antisym x y).
  destruct (x ?= y); simpl; try discriminate; [now apply IH|reflexivity].
Qed.

Lemma str_compare_lt_trans (a b c : str) :
  str_compare a b = Lt -> str_compare b c = Lt -> str_compare a c = Lt.
Proof.
  revert b c; induction a as [|x a IH]; intros [|y b] [|z c] H1 H2;
    simpl in *; try reflexivity; try discriminate.
  destruct (N.compare_spec x y) as [E1|E1|E1]; try discriminate;
    destruct (N.compare_spec y z) as [E2|E2|E2]; try discriminate; subst.
  - rewrite N.compare_refl. eapply IH; eauto.
  - now apply N.compare_lt_iff in E2 as ->.
  - now apply N.compare_lt_iff in E1 as ->.
  - assert (E : x < z) by lia. now apply N.compare_lt_iff in E as ->.
Qed.

Lemma insert_unique_in (x z : str) (l : list str) :
  In z (insert_unique x l) <-> z = x \/ In z l.
Proof.
  induction l as [|y l IH]; simpl; [intuition|].
  destruct (str_compare x y) eqn:E; simpl.
  - apply str_compare_eq in E. subst. intuition.
  - intuition.
  - rewrite IH. intuition.
Qed.

Lemma insert_unique_sorted (x : str) (l : list str) :
  StronglySorted lt_str l -> StronglySorted lt_str (insert_unique x l).
Proof.
  induction l as [|y l IH]; intros H; simpl.
  - repeat constructor.
  - inversion H as [|? ? Hl Hy]; subst.
    destruct (str_compare x y) eqn:E; [assumption| |].
    + constructor; [assumption|]. constructor; [exact E|].
      rewrite Forall_forall in *. intros z Hz.
      eapply str_compare_lt_trans; [exact E|]. now apply Hy.
    + constructor; [now apply IH|].
      rewrite Forall_forall in *. intros z Hz.
      apply insert_unique_in in Hz. destruct Hz as [->|Hz].
      * now apply str_compare_gt_lt.
      * now apply Hy.
Qed.

Lemma unique_sorted (y : list str) : StronglySorted lt_str (unique y).
Proof.
  induction y as [|a y IH]; simpl; [constructor|].
  now apply insert_unique_sorted.
Qed.

Lemma unique_in (y : list str) (l : str) : In l (unique y) <-> In l y.
Proof.
  induction y as [|a y IH]; simpl; [reflexivity|].
  rewrite insert_unique_in, IH. intuition.
Qed.

Lemma sorted_nodup (l : list str) : StronglySorted lt_str l -> NoDup l.
Proof.
  induction 1 as [|a l Hl IH Ha]; constructor; [|assumption].
  intros Hin. rewrite Forall_forall in Ha. specialize (Ha a Hin).
  unfold lt_str in Ha. rewrite str_compare_refl in Ha. discriminate.
Qed.

Lemma index_of_nth (x : str) (l : list str) :
  In x l -> nth_error l (index_of x l) = Some x.
Proof.
  induction l as [|y l IH]; simpl; [contradiction|].
  intros H. destruct (str_eqb x y) eqn:E.
  - apply str_eqb_eq in E. now subst.
  - destruct H as [->|H]; [now rewrite str_eqb_refl in E|]. now apply IH.
Qed.

Lemma nth_index_of (l : list str) (i : nat) (x : str) :
  NoDup l -> nth_error l i = Some x -> index_of x l = i.
Proof.
  intros Hnd; revert i; induction Hnd as [|y l Hy Hnd IH]; intros [|i] H;
    simpl in *; try discriminate.
  - injection H as ->. now rewrite str_eqb_refl.
  - destruct (str_eqb x y) eqn:E.
    + apply str_eqb_eq in E. subst. apply nth_error_In in H. contradiction.
    + f_equal. now apply IH.
Qed.

Lemma pair_eqb_eq (a b : nat * str) : pair_eqb a b = true <-> a = b.
Proof.
  unfold pair_eqb. destruct a as [e l], b as [e' l']; simpl.
  rewrite andb_true_iff, Nat.eqb_eq, str_eqb_eq.
  split; [intros [-> ->]; reflexivity|intros H; injection H; auto].
Qed.

Lemma existsb_pair_eqb (r : nat * str) (seen : list (nat * str)) :
  existsb (pair_eqb r) seen = true <-> In r seen.
Proof.
  rewrite existsb_exists. split.
  - intros [x [Hx E]]. apply pair_eqb_eq in E. now subst.
  - intros H. exists r. split; [assumption|now apply pair_eqb_eq].
Qed.

Lemma drop_duplicates_in (r : nat * str) (rows seen : list (nat * str)) :
  In r (drop_duplicates seen rows) <-> In r rows /\ ~ In r seen.
Proof.
  revert seen; induction rows as [|a rows IH]; intros seen; simpl;
    [intuition|].
  destruct (existsb (pair_eqb a) seen) eqn:E.
  - apply existsb_pair_eqb in E. rewrite IH. intuition; subst; contradiction.
  - assert (Ha : ~ In a seen).
    { intros H. apply existsb_pair_eqb in H. congruence. }
    simpl. rewrite IH. simpl.
    destruct (list_eq_dec N.eq_dec (snd a) (snd r)) as [El|El];
      destruct (Nat.eq_dec (fst a) (fst r)) as [Ee|Ee];
      destruct a, r; simpl in *; subst; intuition congruence.
Qed.

Lemma drop_duplicates_nodup (rows seen : list (nat * str)) :
  NoDup (drop_duplicates seen rows).
Proof.
  revert seen; induction rows as [|a rows IH]; intros seen; simpl;
    [constructor|].
  destruct (existsb (pair_eqb a) seen); [apply IH|].
  constructor; [|apply IH].
  rewrite drop_duplicates_in. simpl. intuition.
Qed.

Lemma insert_by_enc_in (r z : nat * str) (l : list (nat * str)) :
  In z (insert_by_enc r l) <-> z = r \/ In z l.
Proof.
  induction l as [|y l IH]; simpl; [intuition|].
  destruct (Nat.leb (fst r) (fst y)); simpl; [intuition|].
  rewrite IH. intuition.
Qed.

Lemma sort_values_in (z : nat * str) (rows : list (nat * str)) :
  In z (sort_values rows) <-> In z rows.
Proof.
  induction rows as [|a rows IH]; simpl; [reflexivity|].
  rewrite insert_by_enc_in, IH. intuition.
Qed.

Lemma insert_by_enc_sorted (r : nat * str) (l : list (nat * str)) :
  (forall z, In z l -> fst z <> fst r) ->
  StronglySorted lt_enc l -> StronglySorted lt_enc (insert_by_enc r l).
Proof.
  induction l as [|y l IH]; intros Hk H; simpl.
  - repeat constructor.
  - inversion H as [|? ? Hl Hy]; subst.
    assert (Hyr : fst y <> fst r) by (apply Hk; now left).
    destruct (Nat.leb_spec (fst r) (fst y)) as [E|E].
    + constructor; [assumption|]. constructor; [unfold lt_enc; lia|].
      rewrite Forall_forall in *. intros z Hz. specialize (Hy z Hz).
      unfold lt_enc in *. lia.
    + constructor; [apply IH; [intros z Hz; apply Hk; now right|assumption]|].
      rewrite Forall_forall in *. intros z Hz.
      apply insert_by_enc_in in Hz. destruct Hz as [->|Hz];
        [exact E|now apply Hy].
Qed.

Lemma sort_values_sorted (rows : list (nat * str)) :
  NoDup (map fst rows) -> StronglySorted lt_enc (sort_values rows).
Proof.
  induction rows as [|a rows IH]; intros H; simpl; [constructor|].
  inversion H as [|? ? Ha Hr]; subst.
  apply insert_by_enc_sorted; [|now apply IH].
  intros z Hz E. apply (proj1 (sort_values_in z rows)) in Hz. apply Ha.
  rewrite <- E. now apply in_map.
Qed.

Lemma sorted_same_elements (l1 l2 : list (nat * str)) :
  StronglySorted lt_enc l1 -> StronglySorted lt_enc l2 ->
  (forall z, In z l1 <-> In z l2) -> l1 = l2.
Proof.
  intros H1; revert l2; induction H1 as [|a l1 Hl1 IH Ha];
    intros l2 H2 Hin.
  - destruct l2 as [|b l2]; [reflexivity|].
    exfalso. apply (proj2 (Hin b)). now left.
  - destruct H2 as [|b l2 Hl2 Hb].
    + exfalso. apply (proj1 (Hin a)). now left.
    + rewrite Forall_forall in Ha, Hb. unfold lt_enc in *.
      assert (E : a = b).
      { destruct (proj1 (Hin a) (or_introl eq_refl)) as [E|Ia]; [now subst|].
        destruct (proj2 (Hin b) (or_introl eq_refl)) as [E|Ib]; [assumption|].
        specialize (Ha _ Ib). specialize (Hb _ Ia). lia. }
      subst b. f_equal. apply IH; [assumption|].
      intros z. split; intros Hz.
      * destruct (proj1 (Hin z) (or_intror Hz)) as [E|Iz]; [|assumption].
        subst z. specialize (Ha _ Hz). lia.
      * destruct (proj2 (Hin z) (or_intror Hz)) as [E|Iz]; [|assumption].
        subst z. specialize (Hb _ Hz). lia.
Qed.

Lemma numbered_sorted (l : list str) (n : nat) :
  StronglySorted lt_enc (combine (seq n (length l)) l).
Proof.
  revert n; induction l as [|a l IH]; intros n; simpl; constructor;
    [apply IH|].
  apply Forall_forall. intros [e x] Hz. apply in_combine_l in Hz.
  apply in_seq in Hz. unfold lt_enc. simpl. lia.
Qed.

Lemma numbered_in (l : list str) (e : nat) (x : str) :
  In (e, x) (combine (seq 0 (length l)) l) <-> nth_error l e = Some x.
Proof.
  assert (G : forall n, In (e, x) (combine (seq n (length l)) l)
                        <-> (n <= e)%nat /\ nth_error l (e - n) = Some x).
  { induction l as [|a l IH]; intros n; simpl.
    - split; [contradiction|]. intros [_ H]. now destruct (e - n)%nat.
    - rewrite IH. split.
      + intros [H|[H1 H2]].
        * injection H as -> ->. split; [lia|]. now rewrite Nat.sub_diag.
        * split; [lia|]. replace (e - n)%nat with (S (e - S n)) by lia.
          exact H2.
      + intros [H1 H2]. destruct (Nat.eq_dec n e) as [->|Hne].
        * left. rewrite Nat.sub_diag in H2. simpl in H2. congruence.
        * right. split; [lia|].
          replace (e - n)%nat with (S (e - S n)) in H2 by lia. exact H2. }
  rewrite G, Nat.sub_0_r. intuition lia.
Qed.

Lemma decode_found (file : list (nat * str)) (e : nat) (l : str) :
  In (e, l) file -> (forall l', In (e, l') file -> l' = l) ->
  decode file e = Some l.
Proof.
  induction file as [|[e' l'] file IH]; intros Hin Hfun; simpl;
    [contradiction|].
  destruct (Nat.eqb_spec e' e) as [->|Hne].
  - f_equal. apply Hfun. now left.
  - apply IH.
    + destruct Hin as [H|H]; [congruence|assumption].
    + intros l'' H. apply Hfun. now right.
Qed.

Lemma decode_in (file : list (nat * str)) (e : nat) (l : str) :
  decode file e = Some l -> In (e, l) file.
Proof.
  induction file as [|[e' l'] file IH]; simpl; [discriminate|].
  destruct (Nat.eqb_spec e' e) as [->|Hne]; intros H.
  - left. congruence.
  - right. now apply IH.
Qed.

Lemma encoded_pairs_in (cl y : list str) (e : nat) (l : str) :
  In (e, l) (combine (map (fun l => index_of l cl) y) y)
  <-> In l y /\ e = index_of l cl.
Proof.
  induction y as [|a y IH]; simpl; [intuition|].
  rewrite IH. split.
  - intros [H|[H1 H2]]; [injection H as <- <-; auto|auto].
  - intros [[->|H1] H2]; subst; auto.
Qed.

Lemma nodup_map_on (A B : Type) (f : A -> B) (l : list A) :
  NoDup l -> (forall a b, In a l -> In b l -> f a = f b -> a = b) ->
  NoDup (map f l).
Proof.
  induction 1 as [|a l Ha Hl IH]; intros Hinj; simpl; constructor.
  - intros H. apply in_map_iff in H. destruct H as [b [E Hb]].
    assert (b = a) by (apply Hinj; simpl; auto). now subst.
  - apply IH. intros x y Hx Hy. apply Hinj; simpl; auto.
Qed.

Lemma forall2_map_on (A B : Type) (R : A -> B -> Prop) (f : A -> B)
    (l : list A) :
  (forall a, In a l -> R a (f a)) -> Forall2 R l (map f l).
Proof.
  induction l as [|a l IH]; intros H; simpl; constructor.
  - apply H. now left.
  - apply IH. intros b Hb. apply H. now right.
Qed.

Lemma category_map_rows (df : list Row) :
  category_map df
  = combine (seq 0 (length (unique (map label df)))) (unique (map label df)).
Proof.
  unfold category_map, fit_transform.
  set (y := map label df). set (cl := unique y).
  assert (Hnd : NoDup cl) by apply sorted_nodup, unique_sorted.
  assert (Hin : forall e l,
             In (e, l) (drop_duplicates []
                          (combine (map (fun l => index_of l cl) y) y))
             <-> nth_error cl e = Some l).
  { intros e l. rewrite drop_duplicates_in, encoded_pairs_in. split.
    - intros [[Hy ->] _]. apply index_of_nth. now apply unique_in.
    - intros H. split; [|intros []]. split.
      + apply unique_in. eapply nth_error_In; eauto.
      + symmetry. now apply nth_index_of. }
  apply sorted_same_elements.
  - apply sort_values_sorted. apply nodup_map_on; [apply drop_duplicates_nodup|].
    intros [e1 l1] [e2 l2] H1 H2 E. simpl in E. subst e2.
    apply Hin in H1. apply Hin in H2. congruence.
  - apply numbered_sorted.
  - intros [e l]. rewrite sort_values_in, Hin, numbered_in. reflexivity.
Qed.

(** C5. The rows of [category_map.csv] are the distinct labels of the
    column, each once, numbered 0, 1, ... in that order (the file is sorted
    by index); every label of the column is encoded as an index below the
    number of classes, and decoding that index through the file gives the
    label back; decoding an index and encoding the result gives the index
    back. *)
Theorem label_encoding_round_trip (df : list Row) :
  let y := map label df in
  let classes_ := unique y in
  category_map df = combine (seq 0 (length classes_)) classes_
  /\ NoDup classes_
  /\ (forall l, In l classes_ <-> In l y)
  /\ Forall2 (fun l e => decode (category_map df) e = Some l
                         /\ (e < length classes_)%nat)
             y (fit_transform y)
  /\ (forall e l, decode (category_map df) e = Some l
                  -> index_of l classes_ = e /\ In l y).
Proof.
  intros y cl.
  assert (Hnd : NoDup cl) by apply sorted_nodup, unique_sorted.
  split; [apply category_map_rows|]. split; [exact Hnd|].
  split; [intros l; apply unique_in|]. split.
  - unfold fit_transform. fold y. fold cl. apply forall2_map_on.
    intros l Hl. apply unique_in in Hl. fold cl in Hl.
    pose proof (index_of_nth _ _ Hl) as Hn. split.
    + rewrite category_map_rows. fold y. fold cl. apply decode_found.
      * now apply numbered_in.
      * intros l' H. apply numbered_in in H. congruence.
    + apply nth_error_Some. congruence.
  - intros e l H. apply decode_in in H. rewrite category_map_rows in H.
    fold y in H. fold cl in H. apply numbered_in in H. split.
    + now apply nth_index_of.
    + apply unique_in. eapply nth_error_In; eauto.
Qed.

Example label_column_of_the_spec :
  category_map [ {| label := py "POLITICS"; sentence := [] |};
                 {| label := py "SPORTS"; sentence := [] |};
                 {| label := py "POLITICS"; sentence := [] |} ]
  = [ (0%nat, py "POLITICS"); (1%nat, py "SPORTS") ]
  /\ fit_transform [py "POLITICS"; py "SPORTS"; py "POLITICS"]
     = [0; 1; 0]%nat.
Proof. split; reflexivity. Qed.

(** ** The matcher and [re.sub] *)

Section Matcher.

Context {X : Externals}.

Lemma last_char_app (prev : option char) (a b : str) :
  last_char prev (a ++ b) = last_char (last_char prev a) b.
Proof. unfold last_char. apply fold_left_app. Qed.

Lemma run_le (p : char -> bool) (s : str) : (run p s <= length s)%nat.
Proof. induction s as [|c s IH]; simpl; [lia|]. destruct (p c); simpl; lia. Qed.

Lemma literal_starts (l : str) (prev : option char) (s : str) :
  literal l prev s
  = if starts_with l s
    then Some (last_char prev l, skipn (length l) s) else None.
Proof.
  revert prev s; induction l as [|a l IH]; intros prev s; [reflexivity|].
  destruct s as [|c s]; [reflexivity|]. simpl.
  destruct (N.eqb_spec a c) as [->|Hne]; [|reflexivity].
  rewrite IH. reflexivity.
Qed.

Lemma starts_with_app (l s : str) :
  starts_with l s = true -> s = l ++ skipn (length l) s.
Proof.
  revert s; induction l as [|a l IH]; intros s H; [reflexivity|].
  destruct s as [|c s]; [discriminate|]. simpl in *.
  apply andb_true_iff in H. destruct H as [E H]. apply N.eqb_eq in E.
  subst. f_equal. now apply IH.
Qed.

Lemma starts_with_prefix (l t : str) : starts_with l (l ++ t) = true.
Proof.
  induction l as [|a l IH]; [reflexivity|]. simpl.
  now rewrite N.eqb_refl, IH.
Qed.

Lemma starts_with_split (l1 l2 s : str) :
  starts_with (l1 ++ l2) s
  = starts_with l1 s && starts_with l2 (skipn (length l1) s).
Proof.
  revert s; induction l1 as [|a l1 IH]; intros s; [reflexivity|].
  destruct s as [|c s]; [reflexivity|]. simpl.
  rewrite IH. now rewrite andb_assoc.
Qed.

Lemma starts_with_length (l s : str) :
  starts_with l s = true -> (length l <= length s)%nat.
Proof.
  revert s; induction l as [|a l IH]; intros s H; simpl; [lia|].
  destruct s as [|c s]; [discriminate|]. simpl in *.
  apply andb_true_iff in H. destruct H as [_ H]. apply IH in H. lia.
Qed.

(** What a greedy repetition that succeeds has consumed. *)
Lemma greedy_sound (p : char -> bool) (k : cursor -> option cursor)
    (prev : option char) (s : str) (r : cursor) :
  greedy p k prev s = Some r ->
  exists m rest, s = m ++ rest /\ Forall (fun c => p c = true) m
                 /\ k (last_char prev m, rest) = Some r.
Proof.
  revert prev; induction s as [|c s IH]; intros prev H; simpl in H.
  - exists [], []. auto.
  - destruct (p c) eqn:Hp.
    + destruct (greedy p k (Some c) s) as [r'|] eqn:G.
      * injection H as <-. destruct (IH _ G) as [m [rest [-> [Hm Hk]]]].
        exists (c :: m), rest. repeat split; auto.
      * exists [], (c :: s). auto.
    + exists [], (c :: s). auto.
Qed.

(** With nothing after it, a greedy repetition takes the whole run. *)
Lemma greedy_all (p : char -> bool) (prev : option char) (s : str) :
  greedy p Some prev s
  = Some (last_char prev (firstn (run p s) s), skipn (run p s) s).
Proof.
  revert prev; induction s as [|c s IH]; intros prev; [reflexivity|].
  simpl. destruct (p c); [|reflexivity]. now rewrite IH.
Qed.

Lemma match_at_cls (p : char -> bool) (prev : option char) (s : str) :
  match_at (Cls p) prev s
  = match s with
    | c :: _ => if p c then Some 1%nat else None
    | [] => None
    end.
Proof.
  unfold match_at. destruct s as [|c s]; [reflexivity|].
  cbn [sre_match snd fst]. destruct (p c); [|reflexivity]. f_equal.
  cbn [length]. lia.
Qed.

Lemma match_at_many1 (p : char -> bool) (prev : option char) (s : str) :
  match_at (Many1 p) prev s
  = match s with
    | c :: s' => if p c then Some (S (run p s')) else None
    | [] => None
    end.
Proof.
  unfold match_at. destruct s as [|c s]; [reflexivity|].
  cbn [sre_match snd fst]. destruct (p c); [|reflexivity].
  rewrite greedy_all. f_equal.
  rewrite length_skipn. pose proof (run_le p s). cbn [length]. lia.
Qed.

Lemma match_at_digits (prev : option char) (s : str) :
  match_at digits_re prev s
  = match s with
    | c :: d :: s' =>
        if is_space c && is_digit d then Some (S (S (run is_digit s')))
        else None
    | _ => None
    end.
Proof.
  unfold match_at, digits_re. destruct s as [|c [|d s]];
    cbn [sre_match snd fst].
  - reflexivity.
  - now destruct (is_space c).
  - destruct (is_space c); [|reflexivity]. cbn [andb].
    destruct (is_digit d); [|reflexivity]. rewrite greedy_all. f_equal.
    rewrite length_skipn. pose proof (run_le is_digit s). cbn [length]. lia.
Qed.

(** A match holds at least [min_len] characters; the seven patterns of the
    notebook therefore never match the empty string. *)
Lemma sre_match_consumes (r : regex) (k : cursor -> option cursor)
    (cur x : cursor) :
  sre_match r k cur = Some x ->
  exists cur', k cur' = Some x
               /\ (length (snd cur') + min_len r <= length (snd cur))%nat.
Proof.
  revert k cur; induction r as [l|p|p|p| |r1 IH1 r2 IH2|r1 IH1 r2 IH2];
    intros k [prev s] H; cbn [sre_match fst snd min_len] in *.
  - rewrite literal_starts in H.
    destruct (starts_with l s) eqn:E; [|discriminate].
    eexists. split; [exact H|]. cbn [snd].
    apply starts_with_length in E. rewrite length_skipn. lia.
  - destruct s as [|c s]; [discriminate|].
    destruct (p c); [|discriminate].
    eexists. split; [exact H|]. cbn [snd length]. lia.
  - apply greedy_sound in H. destruct H as [m [rest [-> [_ H]]]].
    eexists. split; [exact H|]. cbn [snd]. rewrite length_app. lia.
  - destruct s as [|c s]; [discriminate|].
    destruct (p c); [|discriminate].
    apply greedy_sound in H. destruct H as [m [rest [-> [_ H]]]].
    eexists. split; [exact H|]. cbn [snd length]. rewrite length_app. lia.
  - destruct (at_boundary (prev, s)); [|discriminate].
    eexists. split; [exact H|]. cbn [snd]. lia.
  - apply IH1 in H. destruct H as [c1 [H L1]].
    apply IH2 in H. destruct H as [c2 [H L2]].
    exists c2. split; [exact H|]. cbn [snd] in *. lia.
  - destruct (sre_match r1 k (prev, s)) as [y|] eqn:E.
    + injection H as <-. apply IH1 in E. destruct E as [c1 [H L1]].
      exists c1. split; [exact H|]. cbn [snd] in *. lia.
    + apply IH2 in H. destruct H as [c2 [H L2]].
      exists c2. split; [exact H|]. cbn [snd] in *. lia.
Qed.

Lemma match_at_min_len (r : regex) (prev : option char) (s : str) (n : nat) :
  match_at r prev s = Some n -> (min_len r <= n)%nat.
Proof.
  unfold match_at. destruct (sre_match r Some (prev, s)) as [[p rest]|] eqn:E;
    [|discriminate].
  intros H. injection H as <-. apply sre_match_consumes in E.
  destruct E as [cur' [E L]]. injection E as ->. cbn [snd] in L. lia.
Qed.

Lemma notebook_patterns_consume :
  (0 < min_len email_re)%nat /\ (0 < min_len hyperlink_re)%nat
  /\ (0 < min_len digits_re)%nat /\ (0 < min_len special_re)%nat
  /\ (0 < min_len newline_re)%nat /\ (0 < min_len special_char_pattern)%nat
  /\ (0 < min_len spaces_re)%nat.
Proof. cbn. repeat split; lia. Qed.

(** [re.sub] once the characters of a match have been passed. *)
Lemma sub_from_skip (r : regex) (repl : str -> str) (n : nat)
    (prev : option char) (s : str) :
  (n <= length s)%nat ->
  sub_from r repl n prev s
  = sub_from r repl 0 (last_char prev (firstn n s)) (skipn n s).
Proof.
  revert n prev; induction s as [|c s IH]; intros n prev H.
  - destruct n; [reflexivity|simpl in H; lia].
  - destruct n as [|n]; [reflexivity|]. simpl in H.
    change (sub_from r repl (S n) prev (c :: s))
      with (sub_from r repl n (Some c) s).
    rewrite IH by lia. reflexivity.
Qed.

(** Where the pattern matches nowhere, [re.sub] returns its argument. *)
Lemma sub_from_no_match (r : regex) (repl : str -> str)
    (prev : option char) (s : str) :
  no_match r prev s -> sub_from r repl 0 prev s = s.
Proof.
  revert prev; induction s as [|c s IH]; intros prev H; [reflexivity|].
  pose proof (H [] (c :: s) eq_refl) as H0.
  change (match_at r prev (c :: s) = None) in H0.
  cbn [sub_from]. rewrite H0. f_equal. apply IH.
  intros a b E. subst s. apply (H (c :: a) b eq_refl).
Qed.

Lemma re_sub_no_match (r : regex) (repl : str -> str) (s : str) :
  no_match r None s -> re_sub r repl s = s.
Proof. apply sub_from_no_match. Qed.

End Matcher.

Section Substitution.

Context {X : Externals}.

Variable r : regex.
Variable repl : str -> str.

Lemma sub_from_forall (Q : char -> Prop) (n : nat) (prev : option char)
    (s : str) :
  (forall m, Forall Q m -> Forall Q (repl m)) ->
  Forall Q s -> Forall Q (sub_from r repl n prev s).
Proof.
  intros Hrepl. revert n prev; induction s as [|c s IH]; intros n prev H;
    [constructor|].
  inversion H as [|? ? Hc Hs]; subst.
  destruct n as [|n]; cbn [sub_from]; [|now apply IH].
  destruct (match_at r prev (c :: s)) as [[|k]|].
  - constructor; [assumption|now apply IH].
  - apply Forall_app. split; [|now apply IH].
    apply Hrepl. rewrite <- (firstn_skipn (S k) (c :: s)) in H.
    now apply Forall_app in H.
  - constructor; [assumption|now apply IH].
Qed.

(** What [re.sub] writes is a replacement or a character at which the
    pattern did not match. *)
Lemma sub_from_unmatched (Q : char -> Prop) (n : nat) (prev : option char)
    (s : str) :
  (forall m, Forall Q (repl m)) ->
  (forall prev c s', (forall k, match_at r prev (c :: s') <> Some (S k)) -> Q c) ->
  Forall Q (sub_from r repl n prev s).
Proof.
  intros Hrepl Hfail. revert n prev; induction s as [|c s IH]; intros n prev;
    [constructor|].
  destruct n as [|n]; cbn [sub_from]; [|now apply IH].
  destruct (match_at r prev (c :: s)) as [[|k]|] eqn:E.
  - constructor; [|apply IH]. apply (Hfail prev c s). intros k. congruence.
  - apply Forall_app. split; [apply Hrepl|apply IH].
  - constructor; [|apply IH]. apply (Hfail prev c s). intros k. congruence.
Qed.

(** A literal with no character of the replacements in it occurs in the
    result of [re.sub] only where it occurred before. *)
Variable barrier : char -> bool.
Hypothesis repl_barrier :
  forall prev s n, match_at r prev s = Some (S n) ->
    exists b t, repl (firstn (S n) s) = b :: t
                /\ Forall (fun c => barrier c = true) (b :: t).

Lemma starts_with_barrier (l : str) (b : char) (t : str) :
  l <> [] -> Forall (fun c => barrier c = false) l -> barrier b = true ->
  starts_with l (b :: t) = false.
Proof.
  intros Hne Hl Hb. destruct l as [|a l]; [contradiction|]. simpl.
  inversion Hl as [|? ? Ha _]; subst.
  destruct (N.eqb_spec a b) as [->|_]; [congruence|reflexivity].
Qed.

Lemma sub_from_prefix (l : str) (prev : option char) (s : str) :
  Forall (fun c => barrier c = false) l ->
  starts_with l (sub_from r repl 0 prev s) = true -> starts_with l s = true.
Proof.
  intros Hl. revert prev s; induction Hl as [|a l Ha Hl IH]; intros prev s H;
    [reflexivity|].
  destruct s as [|c s]; [discriminate|]. cbn [sub_from] in H.
  destruct (match_at r prev (c :: s)) as [[|k]|] eqn:E.
  - simpl in *. apply andb_true_iff in H. destruct H as [-> H].
    now rewrite (IH _ _ H).
  - destruct (repl_barrier _ _ E) as [b [t [Er Hb]]]. rewrite Er in H.
    inversion Hb as [|? ? Hb0 _]; subst.
    rewrite <- app_comm_cons, starts_with_barrier in H; try discriminate;
      auto.
  - simpl in *. apply andb_true_iff in H. destruct H as [-> H].
    now rewrite (IH _ _ H).
Qed.

Lemma sub_from_no_occ (l : str) (n : nat) (prev : option char) (s : str) :
  l <> [] -> Forall (fun c => barrier c = false) l ->
  no_occ l s -> no_occ l (sub_from r repl n prev s).
Proof.
  intros Hne Hl. revert n prev; induction s as [|c s IH];
    intros n prev Hs a b E.
  - destruct a; [|discriminate]. simpl in E. subst b.
    destruct l; [contradiction|reflexivity].
  - assert (Hs' : no_occ l s).
    { intros a' b' E'. subst s. apply (Hs (c :: a') b' eq_refl). }
    destruct n as [|n]; cbn [sub_from] in E; [|now apply (IH n (Some c) Hs' a b)].
    assert (Hcopy : c :: sub_from r repl 0 (Some c) s = a ++ b ->
                    match_at r prev (c :: s) = None
                    \/ match_at r prev (c :: s) = Some O ->
                    starts_with l b = false).
    { intros E' Hm. destruct a as [|c' a].
      - simpl in E'. subst b.
        destruct (starts_with l (c :: sub_from r repl 0 (Some c) s)) eqn:F;
          [|reflexivity].
        assert (F' : starts_with l (sub_from r repl 0 prev (c :: s)) = true).
        { cbn [sub_from]. destruct Hm as [-> | ->]; exact F. }
        apply sub_from_prefix in F'; [|assumption].
        now rewrite (Hs [] (c :: s) eq_refl) in F'.
      - injection E' as _ E'. now apply (IH 0%nat (Some c) Hs' a b). }
    destruct (match_at r prev (c :: s)) as [[|k]|] eqn:Em; auto.
    destruct (repl_barrier _ _ Em) as [b0 [t [Er Hb]]]. rewrite Er in E.
    apply app_eq_app in E. destruct E as [u [[E1 E2]|[E1 E2]]].
    + destruct u as [|u0 u].
      * rewrite app_nil_r in E1. simpl in E2. subst b.
        now apply (IH k (Some c) Hs' [] _).
      * assert (Hu : Forall (fun c => barrier c = true) (u0 :: u)).
        { rewrite E1 in Hb. now apply Forall_app in Hb. }
        inversion Hu; subst. rewrite <- app_comm_cons.
        now apply starts_with_barrier.
    + now apply (IH k (Some c) Hs' u b).
Qed.

End Substitution.

Section Characterisations.

Context {X : Externals}.

Lemma matches_nowhere_no_match (r : regex) (prev : option char) (s : str) :
  matches_nowhere r prev s = true <-> no_match r prev s.
Proof.
  revert prev; induction s as [|c s IH]; intros prev.
  - cbn [matches_nowhere]. split.
    + intros H a b E. destruct a; [|discriminate]. simpl in E. subst b.
      cbn [last_char fold_left].
      now destruct (match_at r prev []).
    + intros H. pose proof (H [] [] eq_refl) as H0.
      change (match_at r prev [] = None) in H0. now rewrite H0.
  - cbn [matches_nowhere]. split.
    + intros H a b E.
      destruct (match_at r prev (c :: s)) eqn:Em; [discriminate|].
      destruct a as [|c' a].
      * simpl in E. subst b. exact Em.
      * injection E as <- E. apply (proj1 (IH (Some c)) H a b E).
    + intros H. pose proof (H [] (c :: s) eq_refl) as H0.
      change (match_at r prev (c :: s) = None) in H0. rewrite H0. apply IH.
      intros a b E. subst s. apply (H (c :: a) b eq_refl).
Qed.

Lemma re_sub_cls (p : char -> bool) (repl : str -> str) (prev : option char)
    (s : str) :
  sub_from (Cls p) repl 0 prev s
  = flat_map (fun c => if p c then repl [c] else [c]) s.
Proof.
  revert prev; induction s as [|c s IH]; intros prev; [reflexivity|].
  cbn [sub_from flat_map]. rewrite match_at_cls.
  destruct (p c); rewrite IH; reflexivity.
Qed.

Lemma sub_many1_squeeze (p : char -> bool) (s : str) :
  (forall prev, sub_from (Many1 p) (fun _ => py " ") 0 prev s
                = squeeze p false s)
  /\ (forall prev, sub_from (Many1 p) (fun _ => py " ") (run p s) prev s
                   = squeeze p true s).
Proof.
  induction s as [|c s [IH0 IH1]]; [split; reflexivity|].
  assert (H0 : forall prev, sub_from (Many1 p) (fun _ => py " ") 0 prev (c :: s)
                            = squeeze p false (c :: s)).
  { intros prev. cbn [sub_from squeeze]. rewrite match_at_many1.
    destruct (p c).
    - rewrite IH1. reflexivity.
    - now rewrite IH0. }
  split; [exact H0|]. intros prev. cbn [run].
  destruct (p c) eqn:Hp.
  - cbn [sub_from squeeze]. rewrite Hp. apply IH1.
  - rewrite H0. cbn [squeeze]. now rewrite Hp.
Qed.

Lemma re_sub_many1 (p : char -> bool) (s : str) :
  re_sub (Many1 p) (fun _ => py " ") s = squeeze p false s.
Proof. apply sub_many1_squeeze. Qed.

Lemma sub_digits_scan (s : str) :
  (forall prev, sub_from digits_re (fun _ => py " ") 0 prev s
                = strip_spaced_digits false s)
  /\ (forall prev, sub_from digits_re (fun _ => py " ") (run is_digit s) prev s
                   = strip_spaced_digits true s).
Proof.
  induction s as [|c s [IH0 IH1]]; [split; reflexivity|].
  assert (H0 : forall prev, sub_from digits_re (fun _ => py " ") 0 prev (c :: s)
                            = strip_spaced_digits false (c :: s)).
  { intros prev. cbn [sub_from strip_spaced_digits andb].
    rewrite match_at_digits. destruct s as [|d s].
    - rewrite andb_false_r. now rewrite IH0.
    - destruct (is_space c && is_digit d) eqn:E.
      + rewrite <- (IH1 (Some c)). cbn [run].
        apply andb_true_iff in E. destruct E as [_ ->]. reflexivity.
      + now rewrite IH0. }
  split; [exact H0|]. intros prev. cbn [run].
  destruct (is_digit c) eqn:Hd.
  - cbn [sub_from strip_spaced_digits andb]. rewrite Hd. apply IH1.
  - rewrite H0. cbn [strip_spaced_digits andb]. now rewrite Hd.
Qed.

(** ** Digit removal *)

Lemma scan_without_spaced_digit (s : str) :
  spaced_digit s = false -> strip_spaced_digits false s = s.
Proof.
  induction s as [|c s IH]; intros H; [reflexivity|].
  cbn [spaced_digit] in H. apply orb_false_iff in H. destruct H as [H1 H2].
  cbn [strip_spaced_digits andb]. rewrite H1. f_equal. now apply IH.
Qed.

(** C6, as the code has it. On every string, [remove_digits] is the scan
    that replaces each whitespace character that a digit follows, together
    with the whole run of digits after it, by one space, whatever comes after
    the run, and copies every other character; a run of digits that no
    whitespace character precedes is copied, and a string in which no
    whitespace character has a digit right after it is returned as it is. *)
Theorem remove_digits_scan (s : str) :
  remove_digits s = strip_spaced_digits false s
  /\ (spaced_digit s = false -> remove_digits s = s).
Proof.
  assert (E : remove_digits s = strip_spaced_digits false s)
    by apply sub_digits_scan.
  split; [exact E|]. intros H. rewrite E. now apply scan_without_spaced_digit.
Qed.

End Characterisations.

(** C6 fails twice: the digits that begin a token which is not a number are
    removed, and the tab before a removed number is turned into a space. *)
Lemma remove_digits_inside_token :
  (forall X : Externals, @remove_digits X (py "the 2nd half") = py "the nd half")
  /\ (forall X : Externals,
        @remove_digits X [97; 9; 55; 32; 98] = [97; 32; 32; 98]).
Proof. split; intros X; vm_compute; reflexivity. Qed.

(** ** Which stage can fail *)

Section Graceful.

Context {X : Externals}.

Lemma re_sub_matches_nowhere (r : regex) (repl : str -> str) (s : str) :
  matches_nowhere r None s = true -> re_sub r repl s = s.
Proof.
  intros H. apply re_sub_no_match. now apply matches_nowhere_no_match.
Qed.

Lemma preprocess_doc_call_eq (cfg : NormalizationConfig) (doc : str) :
  preprocess_doc_call cfg doc
  = if accepted cfg doc then Returns (preprocess_doc cfg doc)
    else Raises ValueError.
Proof.
  destruct cfg as [fE fD fH fX fA fL fLm fSw].
  unfold preprocess_doc_call, preprocess_doc, accepted, lemmatizer_input.
  cbn [text_lower_case isRemoveEmail isRemoveHyperLink isRemoveAccentChar
       isRemoveDigits text_lemmatization isRemoveSpecialCharac
       stopword_removal].
  cbv zeta. destruct fLm; cbn [andb negb bind]; [|reflexivity].
  unfold lemmatize_text_call, nlp_call, lemmatize_text.
  match goal with
  | |- context [max_length <? ?n] => destruct (max_length <? n)
  end; reflexivity.
Qed.

Lemma text_preprocessing_loop_eq (cfg : NormalizationConfig)
    (corpus acc : list str) :
  text_preprocessing_loop cfg corpus acc
  = if forallb (accepted cfg) corpus
    then Returns (acc ++ map (preprocess_doc cfg) corpus)
    else Raises ValueError.
Proof.
  revert acc; induction corpus as [|d corpus IH]; intros acc;
    cbn [text_preprocessing_loop forallb map].
  - now rewrite app_nil_r.
  - rewrite preprocess_doc_call_eq.
    destruct (accepted cfg d); cbn [bind andb]; [|reflexivity].
    rewrite IH, <- app_assoc. reflexivity.
Qed.

Lemma accepted_iff (cfg : NormalizationConfig) (doc : str) :
  accepted cfg doc = true
  <-> text_lemmatization cfg = false
      \/ N.of_nat (length (lemmatizer_input cfg doc)) <= max_length.
Proof.
  unfold accepted. rewrite negb_true_iff, andb_false_iff, N.ltb_ge.
  reflexivity.
Qed.

Lemma refused_iff (cfg : NormalizationConfig) (doc : str) :
  accepted cfg doc = false
  <-> text_lemmatization cfg = true
      /\ max_length < N.of_nat (length (lemmatizer_input cfg doc)).
Proof.
  unfold accepted. rewrite negb_false_iff, andb_true_iff, N.ltb_lt.
  reflexivity.
Qed.

Lemma forallb_accepted (cfg : NormalizationConfig) (corpus : list str) :
  (forallb (accepted cfg) corpus = true
   <-> Forall (fun d => text_lemmatization cfg = false
                        \/ N.of_nat (length (lemmatizer_input cfg d))
                           <= max_length) corpus)
  /\ (forallb (accepted cfg) corpus = false
      <-> Exists (fun d => text_lemmatization cfg = true
                           /\ max_length
                              < N.of_nat (length (lemmatizer_input cfg d)))
                 corpus).
Proof.
  induction corpus as [|d corpus [IH1 IH2]]; cbn [forallb].
  - split; split; intros H; try constructor; try discriminate.
    inversion H.
  - split.
    + rewrite andb_true_iff, accepted_iff, IH1. split.
      * intros [A B]. now constructor.
      * intros H. inversion H; subst. now split.
    + rewrite andb_false_iff, refused_iff, IH2. split.
      * intros [A|B]; [now apply Exists_cons_hd|now apply Exists_cons_tl].
      * intros H. inversion H; subst; [now left|now right].
Qed.


Lemma letters_reach_lemmatizer (n : nat) :
  lemmatizer_input only_lemmas (repeat 97 n) = repeat 97 n.
Proof.
  unfold lemmatizer_input.
  cbn [only_lemmas text_lower_case isRemoveEmail isRemoveHyperLink
       isRemoveAccentChar isRemoveDigits].
  cbv zeta. unfold newline_re. rewrite re_sub_many1.
  unfold re_sub, special_char_pattern. rewrite re_sub_cls.
  induction n as [|n IH]; [reflexivity|].
  cbn [repeat squeeze]. change (newline_class 97) with false. cbn iota.
  cbn [flat_map]. rewrite IH. reflexivity.
Qed.

Lemma long_letters_refused (n : nat) :
  max_length < N.of_nat n -> accepted only_lemmas (repeat 97 n) = false.
Proof.
  intros H. apply refused_iff. split; [reflexivity|].
  now rewrite letters_reach_lemmatizer, repeat_length.
Qed.

End Graceful.

Example plain_headline_unchanged :
  forall X : Externals,
    matches_nowhere email_re None (py "Senate passes budget") = true
    /\ remove_emails (py "Senate passes budget") = py "Senate passes budget".
Proof. intros X. split; vm_compute; reflexivity. Qed.

(** ** Idempotence *)

Section Links.

Context {X : Externals}.

(** The hyperlink pattern matches exactly where a link starts, and then at
    least the seven characters of [http://]. *)
Lemma match_at_hyperlink (prev : option char) (s : str) :
  match match_at hyperlink_re prev s with
  | Some n => link_start s = true /\ (7 <= n)%nat
  | None => link_start s = false
  end.
Proof.
  unfold match_at, hyperlink_re, link_start.
  change (py "http://") with (py "http" ++ py "://").
  change (py "https://") with (py "https" ++ py "://").
  rewrite !starts_with_split.
  change (length (py "http")) with 4%nat.
  change (length (py "https")) with 5%nat.
  cbn [sre_match fst snd]. rewrite !literal_starts.
  change (length (py "http")) with 4%nat.
  change (length (py "https")) with 5%nat.
  destruct (starts_with (py "http") s) eqn:E1.
  - pose proof (starts_with_length _ _ E1) as L1.
    change (length (py "http")) with 4%nat in L1.
    cbn [fst snd]. rewrite literal_starts.
    change (length (py "://")) with 3%nat.
    destruct (starts_with (py "://") (skipn 4 s)) eqn:E2.
    + pose proof (starts_with_length _ _ E2) as L2.
      change (length (py "://")) with 3%nat in L2.
      rewrite length_skipn in L2.
      cbn [fst snd]. rewrite greedy_all.
      split; [reflexivity|]. rewrite !length_skipn. lia.
    + cbn [andb orb].
      destruct (starts_with (py "https") s) eqn:E3; [|reflexivity].
      cbn [fst snd]. rewrite literal_starts.
      change (length (py "://")) with 3%nat.
      destruct (starts_with (py "://") (skipn 5 s)) eqn:E4; [|reflexivity].
      pose proof (starts_with_length _ _ E4) as L4.
      change (length (py "://")) with 3%nat in L4.
      rewrite length_skipn in L4.
      cbn [fst snd]. rewrite greedy_all.
      split; [reflexivity|]. rewrite !length_skipn. lia.
  - cbn [andb orb].
    destruct (starts_with (py "https") s) eqn:E3; [|reflexivity].
    exfalso. change (py "https") with (py "http" ++ py "s") in E3.
    rewrite starts_with_split, E1 in E3. discriminate.
Qed.

(** An e-mail match holds a dot with a character that is not whitespace
    right after it. *)
Lemma email_match_dot (prev : option char) (s : str) (n : nat) :
  match_at email_re prev s = Some n ->
  exists a d b, s = a ++ 46 :: d :: b /\ is_space d = false.
Proof.
  unfold match_at, email_re. cbn [sre_match fst snd].
  destruct (at_boundary (prev, s)); [|discriminate].
  destruct s as [|c s]; [discriminate|].
  destruct (not_space c); [|discriminate].
  destruct (greedy _ _ _ _) as [r|] eqn:G; [|discriminate]. intros _.
  apply greedy_sound in G. destruct G as [m [rest [-> [_ G]]]].
  cbn [fst snd] in G. rewrite literal_starts in G.
  destruct (starts_with (py "@") rest) eqn:E1; [|discriminate].
  apply starts_with_app in E1. rewrite E1. cbn [fst snd] in G.
  destruct (skipn (length (py "@")) rest) as [|c2 s2]; [discriminate|].
  destruct (not_space c2); [|discriminate].
  apply greedy_sound in G. destruct G as [m2 [rest3 [-> [_ G]]]].
  cbn [fst snd] in G.
  destruct rest3 as [|c3 s3]; [discriminate|].
  destruct (chr "." c3) eqn:E3; [|discriminate].
  cbn [fst snd] in G.
  destruct s3 as [|d s4]; [discriminate|].
  destruct (not_space d) eqn:E4; [|discriminate].
  assert (c3 = 46).
  { unfold chr in E3. simpl in E3. rewrite orb_false_r in E3.
    now apply N.eqb_eq in E3. }
  subst c3. exists (c :: m ++ py "@" ++ c2 :: m2), d, s4. split.
  - simpl. rewrite <- !app_assoc. reflexivity.
  - unfold not_space in E4. now apply negb_true_iff in E4.
Qed.

End Links.

Section StageFacts.

Context {X : Externals}.

Lemma forallb_Forall (p : char -> bool) (s : str) :
  forallb p s = true <-> Forall (fun c => p c = true) s.
Proof. rewrite forallb_forall, Forall_forall. reflexivity. Qed.

Lemma lower_ascii (s : str) :
  Forall (fun c => is_ascii c = true) s -> lower s = map ascii_lower s.
Proof.
  intros H. unfold lower. apply forallb_Forall in H. now rewrite H.
Qed.

Lemma remove_accented_ascii (s : str) :
  Forall (fun c => is_ascii c = true) s -> remove_accented_chars s = s.
Proof.
  intros H. unfold remove_accented_chars, decode_utf8_ignore,
    encode_ascii_ignore, normalize_NFKD.
  rewrite (proj2 (forallb_Forall _ _) H).
  induction H as [|c s Hc Hs IH]; [reflexivity|]. simpl. now rewrite Hc, IH.
Qed.

Lemma map_ascii_lower_fixed (s : str) :
  Forall (fun c => is_upper_az c = false) s -> map ascii_lower s = s.
Proof.
  induction 1 as [|c s Hc Hs IH]; [reflexivity|]. simpl. rewrite IH.
  unfold ascii_lower. now rewrite Hc.
Qed.

Lemma re_sub_space_forall (Q : char -> Prop) (r : regex) (s : str) :
  Q 32 -> Forall Q s -> Forall Q (re_sub r (fun _ => py " ") s).
Proof.
  intros H32. apply sub_from_forall. intros m _. repeat constructor. exact H32.
Qed.

Lemma spacing_forall (Q : char -> Prop) (s : str) :
  Q 32 -> Forall Q s ->
  Forall Q (re_sub special_char_pattern (fun m => py " " ++ m ++ py " ") s).
Proof.
  intros H32. apply sub_from_forall. intros m Hm.
  apply Forall_app. split; [repeat constructor; exact H32|].
  apply Forall_app. split; [exact Hm|repeat constructor; exact H32].
Qed.

Lemma re_sub_space_no_occ (l : str) (r : regex) (s : str) :
  l <> [] -> Forall (fun c => barrier c = false) l ->
  no_occ l s -> no_occ l (re_sub r (fun _ => py " ") s).
Proof.
  intros Hne Hl. apply sub_from_no_occ with (barrier := barrier); auto.
  intros prev t n _. exists 32, []. split; [reflexivity|].
  repeat constructor.
Qed.

Lemma spacing_no_occ (l : str) (s : str) :
  l <> [] -> Forall (fun c => barrier c = false) l ->
  no_occ l s ->
  no_occ l (re_sub special_char_pattern (fun m => py " " ++ m ++ py " ") s).
Proof.
  intros Hne Hl. apply sub_from_no_occ with (barrier := barrier); auto.
  intros prev t n H. unfold special_char_pattern in H.
  rewrite match_at_cls in H. destruct t as [|c t]; [discriminate|].
  destruct (special_class c) eqn:Hc; [|discriminate].
  injection H as <-. exists 32, (c :: py " "). split; [reflexivity|].
  repeat constructor. unfold barrier. rewrite Hc. apply orb_true_r.
Qed.

Lemma newline_free (s : str) :
  Forall (fun c => newline_class c = false)
         (re_sub newline_re (fun _ => py " ") s).
Proof.
  apply sub_from_unmatched.
  - intros m. repeat constructor.
  - intros prev c s' H. unfold newline_re in H. rewrite match_at_many1 in H.
    destruct (newline_class c); [|reflexivity].
    now contradiction (H (run newline_class s')).
Qed.

Lemma alpha_space_after (s : str) :
  Forall (fun c => is_alpha_az c || is_space c = true)
         (remove_special_characters s).
Proof.
  apply sub_from_unmatched.
  - intros m. repeat constructor.
  - intros prev c s' H. unfold special_re in H. rewrite match_at_cls in H.
    unfold not_alpha_space in H.
    destruct (is_alpha_az c || is_space c); [reflexivity|].
    now contradiction (H 0%nat).
Qed.

Lemma link_start_space (t : str) : link_start (32 :: t) = false.
Proof. reflexivity. Qed.

Lemma link_barrier :
  Forall (fun c => barrier c = false) (py "http://")
  /\ Forall (fun c => barrier c = false) (py "https://").
Proof. split; repeat constructor. Qed.

Lemma sub_link_prefix (prev : option char) (s : str) :
  link_start (sub_from hyperlink_re (fun _ => py " ") 0 prev s) = true ->
  link_start s = true.
Proof.
  unfold link_start. intros H. apply orb_true_iff in H.
  apply orb_true_iff.
  destruct H as [H|H]; [left|right];
    (eapply sub_from_prefix with (barrier := barrier); [| |exact H];
     [intros p t n _; exists 32, []; split; [reflexivity|repeat constructor]
     |apply link_barrier]).
Qed.

(** After the hyperlink removal no link starts anywhere. *)
Lemma no_link_after_sub (s : str) (n : nat) (prev : option char) (a b : str) :
  sub_from hyperlink_re (fun _ => py " ") n prev s = a ++ b ->
  link_start b = false.
Proof.
  revert n prev a; induction s as [|c s IH]; intros n prev a E.
  - destruct a; [|discriminate]. simpl in E. now subst b.
  - destruct n as [|n]; cbn [sub_from] in E; [|now apply (IH n (Some c) a)].
    pose proof (match_at_hyperlink prev (c :: s)) as Hm.
    assert (Hcopy : c :: sub_from hyperlink_re (fun _ => py " ") 0 (Some c) s
                    = a ++ b ->
                    link_start (c :: s) = false -> link_start b = false).
    { intros E' Hl. destruct a as [|c' a].
      - simpl in E'. subst b.
        destruct (link_start (c :: sub_from _ _ 0 (Some c) s)) eqn:F;
          [|reflexivity].
        assert (F' : link_start (sub_from hyperlink_re (fun _ => py " ") 0
                                   prev (c :: s)) = true).
        { cbn [sub_from].
          destruct (match_at hyperlink_re prev (c :: s)) as [[|k]|];
            try exact F. destruct Hm as [Hm _]. congruence. }
        apply sub_link_prefix in F'. congruence.
      - injection E' as _ E'. now apply (IH 0%nat (Some c) a). }
    destruct (match_at hyperlink_re prev (c :: s)) as [[|k]|].
    + destruct Hm as [_ Hm]. lia.
    + destruct a as [|c' a].
      * simpl in E. subst b. apply link_start_space.
      * injection E as _ E. now apply (IH k (Some c) a).
    + now apply Hcopy.
Qed.

Lemma no_link_after (s : str) :
  no_occ (py "http://") (remove_hyperlink s)
  /\ no_occ (py "https://") (remove_hyperlink s).
Proof.
  split; intros a b E;
    apply (no_link_after_sub s 0 None a b) in E;
    unfold link_start in E; apply orb_false_iff in E; tauto.
Qed.

End StageFacts.

Section Fixed.

Context {X : Externals}.

Lemma blank_not_special (c : char) : blank c = true -> special_class c = false.
Proof. char_lia. Qed.

Lemma spacing_stage (s : str) :
  re_sub special_char_pattern (fun m => py " " ++ m ++ py " ") s
  = flat_map spacing s.
Proof. unfold re_sub, special_char_pattern. apply re_sub_cls. Qed.

Lemma spaces_stage (s : str) :
  re_sub spaces_re (fun _ => py " ") s = squeeze blank false s.
Proof. apply re_sub_many1. Qed.

Lemma spacing_eq (c : char) :
  spacing c = if special_class c then [32; c; 32] else [c].
Proof. reflexivity. Qed.

(** Spacing then squeezing puts a document in the normal form. *)
Lemma norm_after (z : str) :
  norm Text (squeeze blank false (flat_map spacing z)) = true
  /\ norm Space (squeeze blank true (flat_map spacing z)) = true.
Proof.
  induction z as [|c z [IH0 IH1]]; [split; reflexivity|].
  cbn [flat_map]. rewrite (spacing_eq c).
  destruct (special_class c) eqn:Hs.
  - assert (Hb : blank c = false).
    { destruct (blank c) eqn:Hb; [|reflexivity].
      apply blank_not_special in Hb. congruence. }
    cbn [app squeeze norm]. change (blank 32) with true. cbn iota.
    rewrite Hb. cbn [squeeze norm]. change (blank 32) with true.
    cbn iota. rewrite Hb, Hs. cbn [norm andb].
    change (blank SPACE) with true. cbn iota. cbn [andb].
    split; exact IH1.
  - cbn [app squeeze]. destruct (blank c) eqn:Hb.
    + cbn [norm]. change (blank SPACE) with true. cbn iota.
      split; exact IH1.
    + cbn [norm]. rewrite Hb, Hs. split; exact IH0.
Qed.

(** A document in normal form is a fixed point of spacing then squeezing. *)
Lemma norm_fixed (o : str) (g : gap) :
  norm g o = true ->
  match g with
  | Text => squeeze blank false (flat_map spacing o) = o
  | Space => squeeze blank true (flat_map spacing o) = o
  | Special => SPACE :: squeeze blank true (flat_map spacing o) = o
  end.
Proof.
  revert g; induction o as [|c o IH]; intros g H.
  - destruct g; try reflexivity; discriminate.
  - cbn [norm] in H. cbn [flat_map]. rewrite (spacing_eq c).
    destruct g.
    + destruct (blank c) eqn:Hb.
      * rewrite (blank_not_special _ Hb). cbn [app squeeze]. rewrite Hb.
        apply N.eqb_eq in Hb. subst c.
        f_equal. apply (IH Space H).
      * destruct (special_class c) eqn:Hs; [discriminate|].
        cbn [app squeeze]. rewrite Hb. f_equal. apply (IH Text H).
    + destruct (blank c) eqn:Hb; [discriminate|].
      destruct (special_class c) eqn:Hs.
      * cbn [app squeeze]. change (blank 32) with true. cbn iota.
        rewrite Hb. f_equal. apply (IH Special H).
      * cbn [app squeeze]. rewrite Hb. f_equal. apply (IH Text H).
    + apply andb_true_iff in H. destruct H as [Hb H].
      rewrite (blank_not_special _ Hb). cbn [app squeeze]. rewrite Hb.
      apply N.eqb_eq in Hb. subst c. f_equal. apply (IH Space H).
Qed.

Lemma norm_special_spaced (o : str) (g : gap) (a : str) (c d : char) (b : str) :
  norm g o = true -> o = a ++ c :: d :: b -> special_class c = true ->
  d = 32.
Proof.
  intros H E Hc. subst o. revert g H; induction a as [|x a IH]; intros g H.
  - cbn [app norm] in H.
    assert (Hb : blank c = false).
    { destruct (blank c) eqn:Hb; [|reflexivity].
      apply blank_not_special in Hb. congruence. }
    rewrite Hb, Hc in H. destruct g; try discriminate.
    apply andb_true_iff in H. destruct H as [H _]. now apply N.eqb_eq in H.
  - cbn [app norm] in H. destruct g.
    + destruct (blank x); [now apply (IH Space)|].
      destruct (special_class x); [discriminate|now apply (IH Text)].
    + destruct (blank x); [discriminate|].
      destruct (special_class x); [now apply (IH Special)|now apply (IH Text)].
    + apply andb_true_iff in H. destruct H as [_ H]. now apply (IH Space).
Qed.

Lemma squeeze_idem (p : char -> bool) (s : str) :
  p SPACE = true ->
  squeeze p false (squeeze p false s) = squeeze p false s
  /\ squeeze p true (squeeze p true s) = squeeze p true s
  /\ squeeze p false (squeeze p true s) = squeeze p true s.
Proof.
  intros Hp. induction s as [|c s [IH0 [IH1 IH2]]]; [repeat split|].
  cbn [squeeze]. destruct (p c) eqn:Hc.
  - cbn [squeeze]. rewrite Hp. repeat split; try assumption.
    now rewrite IH1.
  - cbn [squeeze]. rewrite Hc. repeat split; now rewrite IH0.
Qed.

(** The stages that leave a document as it is. *)

Lemma remove_emails_fixed (s : str) :
  (forall a d b, s = a ++ 46 :: d :: b -> is_space d = true) ->
  remove_emails s = s.
Proof.
  intros H. apply re_sub_no_match. intros a b E.
  destruct (match_at email_re (last_char None a) b) as [n|] eqn:Em;
    [|reflexivity].
  apply email_match_dot in Em. destruct Em as [a' [d [b' [-> Hd]]]].
  rewrite app_assoc in E. apply H in E. congruence.
Qed.

Lemma remove_hyperlink_fixed (s : str) :
  no_occ (py "http://") s -> no_occ (py "https://") s ->
  remove_hyperlink s = s.
Proof.
  intros H1 H2. apply re_sub_no_match. intros a b E.
  pose proof (match_at_hyperlink (last_char None a) b) as Hm.
  destruct (match_at hyperlink_re (last_char None a) b); [|reflexivity].
  destruct Hm as [Hm _]. unfold link_start in Hm.
  rewrite (H1 a b E), (H2 a b E) in Hm. discriminate.
Qed.

Lemma remove_digits_fixed (s : str) :
  Forall (fun c => is_digit c = false) s -> remove_digits s = s.
Proof.
  intros H. apply re_sub_no_match. intros a b E.
  rewrite match_at_digits. destruct b as [|c [|d b]]; try reflexivity.
  subst s. apply Forall_app in H. destruct H as [_ H].
  inversion H as [|? ? _ H']; subst. inversion H' as [|? ? Hd _]; subst.
  now rewrite Hd, andb_false_r.
Qed.

Lemma class_stage_fixed (p : char -> bool) (repl : str -> str) (s : str) :
  Forall (fun c => p c = false) s -> re_sub (Cls p) repl s = s.
Proof.
  intros H. unfold re_sub. rewrite re_sub_cls.
  induction H as [|c s Hc Hs IH]; [reflexivity|]. simpl. now rewrite Hc, IH.
Qed.

Lemma run_stage_fixed (p : char -> bool) (s : str) :
  Forall (fun c => p c = false) s ->
  re_sub (Many1 p) (fun _ => py " ") s = s.
Proof.
  intros H. rewrite re_sub_many1.
  induction H as [|c s Hc Hs IH]; [reflexivity|]. simpl. now rewrite Hc, IH.
Qed.

End Fixed.

Section Idempotence.

Context {X : Externals}.

Lemma first_pass_cleaned (cfg : NormalizationConfig) (doc : str) :
  Forall (fun c => is_ascii c = true) doc ->
  text_lemmatization cfg = false -> stopword_removal cfg = false ->
  cleaned cfg (preprocess_doc cfg doc).
Proof.
  destruct cfg as [fE fD fH fX fA fL fLm fSw].
  cbn [text_lemmatization stopword_removal]. intros Hasc -> ->.
  unfold cleaned, preprocess_doc.
  cbn [text_lower_case isRemoveEmail isRemoveHyperLink isRemoveAccentChar
       isRemoveDigits text_lemmatization isRemoveSpecialCharac
       stopword_removal].
  set (Q := fun c : char =>
              is_ascii c = true /\ (fL = true -> is_upper_az c = false)).
  assert (Q32 : Q 32) by (split; [reflexivity|intros _; reflexivity]).
  set (d1 := if fL then lower doc else doc).
  assert (I1 : Forall Q d1).
  { subst d1. destruct fL.
    - rewrite (lower_ascii Hasc). apply Forall_forall. intros c Hc.
      apply in_map_iff in Hc. destruct Hc as [c0 [<- Hc0]].
      rewrite Forall_forall in Hasc. specialize (Hasc _ Hc0).
      split; [|intros _]; unfold ascii_lower;
        destruct (is_upper_az c0) eqn:Hu; char_lia.
    - eapply Forall_impl; [|exact Hasc]. intros c Hc. split; [exact Hc|].
      discriminate. }
  set (d2 := if fE then remove_emails d1 else d1).
  assert (I2 : Forall Q d2).
  { subst d2. destruct fE; [|exact I1]. now apply re_sub_space_forall. }
  set (d3 := if fH then remove_hyperlink d2 else d2).
  assert (I3 : Forall Q d3).
  { subst d3. destruct fH; [|exact I2]. now apply re_sub_space_forall. }
  assert (L3 : fH = true ->
               no_occ (py "http://") d3 /\ no_occ (py "https://") d3).
  { intros ->. apply no_link_after. }
  set (d4 := if fA then remove_accented_chars d3 else d3).
  assert (E4 : d4 = d3).
  { subst d4. destruct fA; [|reflexivity]. apply remove_accented_ascii.
    eapply Forall_impl; [|exact I3]. intros c [Hc _]. exact Hc. }
  rewrite E4. clearbody d3. clear E4 d4 I2 d2 I1 d1 Hasc.
  pose proof link_barrier as [B1 B2].
  assert (N1 : py "http://" <> []) by discriminate.
  assert (N2 : py "https://" <> []) by discriminate.
  set (d5 := if fD then remove_digits d3 else d3).
  assert (I5 : Forall Q d5).
  { subst d5. destruct fD; [|exact I3]. now apply re_sub_space_forall. }
  assert (L5 : fH = true ->
               no_occ (py "http://") d5 /\ no_occ (py "https://") d5).
  { intros Hh. destruct (L3 Hh) as [La Lb]. subst d5.
    destruct fD; [|now split].
    split; now apply re_sub_space_no_occ. }
  clearbody d5. clear I3 L3 d3.
  set (d6 := re_sub newline_re (fun _ => py " ") d5).
  assert (I6 : Forall Q d6) by now apply re_sub_space_forall.
  assert (L6 : fH = true ->
               no_occ (py "http://") d6 /\ no_occ (py "https://") d6).
  { intros Hh. destruct (L5 Hh) as [La Lb].
    split; now apply re_sub_space_no_occ. }
  assert (W6 : Forall (fun c => newline_class c = false) d6)
    by apply newline_free.
  clearbody d6. clear I5 L5 d5.
  set (d7 := re_sub special_char_pattern (fun m => py " " ++ m ++ py " ") d6).
  assert (I7 : Forall Q d7) by now apply spacing_forall.
  assert (L7 : fH = true ->
               no_occ (py "http://") d7 /\ no_occ (py "https://") d7).
  { intros Hh. destruct (L6 Hh) as [La Lb].
    split; now apply spacing_no_occ. }
  assert (W7 : Forall (fun c => newline_class c = false) d7)
    by now apply spacing_forall.
  destruct fX.
  - clearbody d7. clear I6 L6 W6 d6.
    set (d8 := remove_special_characters d7).
    assert (I8 : Forall Q d8) by now apply re_sub_space_forall.
    assert (L8 : fH = true ->
                 no_occ (py "http://") d8 /\ no_occ (py "https://") d8).
    { intros Hh. destruct (L7 Hh) as [La Lb].
      split; now apply re_sub_space_no_occ. }
    assert (W8 : Forall (fun c => newline_class c = false) d8)
      by now apply re_sub_space_forall.
    assert (A8 : Forall (fun c => is_alpha_az c || is_space c = true) d8)
      by apply alpha_space_after.
    clearbody d8. clear I7 L7 W7 d7.
    split; [now apply re_sub_space_forall|].
    split; [now apply re_sub_space_forall|].
    split.
    { intros Hh. destruct (L8 Hh) as [La Lb].
      split; now apply re_sub_space_no_occ. }
    split; [now apply re_sub_space_forall|].
    rewrite spaces_stage. now apply squeeze_idem.
  - split; [now apply re_sub_space_forall|].
    split; [now apply re_sub_space_forall|].
    split.
    { intros Hh. destruct (L7 Hh) as [La Lb].
      split; now apply re_sub_space_no_occ. }
    subst d7. rewrite spacing_stage, spaces_stage. apply norm_after.
Qed.

Lemma cleaned_fixed (cfg : NormalizationConfig) (o : str) :
  cleaned cfg o ->
  text_lemmatization cfg = false -> stopword_removal cfg = false ->
  isRemoveDigits cfg = false \/ isRemoveSpecialCharac cfg = true ->
  preprocess_doc cfg o = o.
Proof.
  destruct cfg as [fE fD fH fX fA fL fLm fSw]. unfold cleaned.
  cbn [text_lower_case isRemoveEmail isRemoveHyperLink isRemoveAccentChar
       isRemoveDigits text_lemmatization isRemoveSpecialCharac
       stopword_removal].
  intros [I [W [L T]]] -> -> HDX.
  assert (Hasc : Forall (fun c => is_ascii c = true) o).
  { eapply Forall_impl; [|exact I]. intros c [Hc _]. exact Hc. }
  assert (Hdot : forall a d b, o = a ++ 46 :: d :: b -> is_space d = true).
  { intros a d b E. destruct fX.
    - destruct T as [T _]. rewrite E in T. apply Forall_app in T.
      destruct T as [_ T]. inversion T as [|? ? Hc _]; subst. discriminate.
    - assert (d = 32) by (eapply norm_special_spaced; eauto).
      now subst d. }
  unfold preprocess_doc.
  cbn [text_lower_case isRemoveEmail isRemoveHyperLink isRemoveAccentChar
       isRemoveDigits text_lemmatization isRemoveSpecialCharac
       stopword_removal].
  assert (E1 : (if fL then lower o else o) = o).
  { destruct fL; [|reflexivity]. rewrite (lower_ascii Hasc).
    apply map_ascii_lower_fixed. eapply Forall_impl; [|exact I].
    intros c [_ Hc]. now apply Hc. }
  rewrite E1.
  assert (E2 : (if fE then remove_emails o else o) = o).
  { destruct fE; [|reflexivity]. now apply remove_emails_fixed. }
  rewrite E2.
  assert (E3 : (if fH then remove_hyperlink o else o) = o).
  { destruct fH; [|reflexivity]. destruct (L eq_refl).
    now apply remove_hyperlink_fixed. }
  rewrite E3.
  assert (E4 : (if fA then remove_accented_chars o else o) = o).
  { destruct fA; [|reflexivity]. now apply remove_accented_ascii. }
  rewrite E4.
  assert (E5 : (if fD then remove_digits o else o) = o).
  { destruct fD; [|reflexivity]. destruct HDX as [HDX|HDX]; [discriminate|].
    subst fX. destruct T as [T _]. apply remove_digits_fixed.
    rewrite Forall_forall in *. intros c Hc.
    specialize (T c Hc). specialize (Hasc c Hc). unfold is_digit.
    rewrite Hasc. char_lia. }
  rewrite E5.
  assert (E6 : re_sub newline_re (fun _ => py " ") o = o).
  { now apply run_stage_fixed. }
  rewrite E6.
  destruct fX.
  - destruct T as [T Hsq].
    assert (E7 : re_sub special_char_pattern
                   (fun m => py " " ++ m ++ py " ") o = o).
    { apply class_stage_fixed. eapply Forall_impl; [|exact T].
      intros c Hc. char_lia. }
    rewrite E7.
    assert (E8 : remove_special_characters o = o).
    { apply class_stage_fixed. eapply Forall_impl; [|exact T].
      intros c Hc. unfold not_alpha_space. now rewrite Hc. }
    rewrite E8. rewrite spaces_stage. exact Hsq.
  - rewrite spacing_stage, spaces_stage. exact (norm_fixed o Text T).
Qed.

Lemma preprocess_doc_idempotent (cfg : NormalizationConfig) (doc : str) :
  Forall (fun c => is_ascii c = true) doc ->
  text_lemmatization cfg = false -> stopword_removal cfg = false ->
  isRemoveDigits cfg = false \/ isRemoveSpecialCharac cfg = true ->
  preprocess_doc cfg (preprocess_doc cfg doc) = preprocess_doc cfg doc.
Proof.
  intros Hasc Hl Hs Hd. apply cleaned_fixed; auto.
  now apply first_pass_cleaned.
Qed.

(** C3, as the code has it. For documents of ASCII characters, with
    lemmatization and stopword removal off and with digit removal off or
    special-character removal on, [text_preprocessing] applied to its own
    output, under the same configuration, returns that output. *)
Theorem idempotent_on_ascii (cfg : NormalizationConfig) (corpus : list str) :
  Forall (Forall (fun c => is_ascii c = true)) corpus ->
  text_lemmatization cfg = false -> stopword_removal cfg = false ->
  isRemoveDigits cfg = false \/ isRemoveSpecialCharac cfg = true ->
  text_preprocessing (text_preprocessing corpus cfg) cfg
  = text_preprocessing corpus cfg.
Proof.
  intros Hasc Hl Hs Hd. rewrite !text_preprocessing_map, map_map.
  apply map_ext_in. intros doc Hdoc. rewrite Forall_forall in Hasc.
  apply preprocess_doc_idempotent; auto.
Qed.

End Idempotence.

(** ** The example of the specification *)

Section SpecExample.

Context {X : Externals}.

Lemma occurs_nowhere_no_occ (l s : str) :
  occurs_nowhere l s = true -> no_occ l s.
Proof.
  induction s as [|c s IH]; intros H a b E.
  - destruct a; [|discriminate]. simpl in E. subst b. simpl in H.
    rewrite andb_true_r in H. now apply negb_true_iff in H.
  - cbn [occurs_nowhere] in H. apply andb_true_iff in H.
    destruct H as [H1 H2]. destruct a as [|c' a].
    + simpl in E. subst b. now apply negb_true_iff in H1.
    + injection E as _ E. now apply (IH H2 a b).
Qed.

Lemma starts_with_extend (l x y : str) :
  starts_with l x = true -> starts_with l (x ++ y) = true.
Proof.
  revert x; induction l as [|a l IH]; intros x H; [reflexivity|].
  destruct x as [|c x]; [discriminate|]. simpl in *.
  apply andb_true_iff in H. destruct H as [-> H]. now apply IH.
Qed.

Lemma starts_with_reach (l t y : str) :
  starts_with l (t ++ y) = true ->
  starts_with l t = true
  \/ exists c l2, l = t ++ c :: l2 /\ starts_with (c :: l2) y = true.
Proof.
  revert t; induction l as [|a l IH]; intros t H; [now left|].
  destruct t as [|c t].
  - right. exists a, l. auto.
  - simpl in H. apply andb_true_iff in H. destruct H as [E H].
    apply N.eqb_eq in E. subst c. destruct (IH _ H) as [H'|[c [l2 [-> H']]]].
    + left. simpl. now rewrite N.eqb_refl.
    + right. exists c, l2. auto.
Qed.

Lemma no_occ_part (l s a w b : str) :
  no_occ l s -> s = a ++ w ++ b -> no_occ l w.
Proof.
  intros H -> a' b' ->.
  destruct (starts_with l b') eqn:E; [|reflexivity].
  apply (starts_with_extend _ _ b) in E.
  rewrite <- (H (a ++ a') (b' ++ b)); [now rewrite E|].
  now rewrite <- !app_assoc.
Qed.

Lemma no_occ_glue (l u v : str) :
  l <> [] -> Forall (fun c => blank c = false) l ->
  no_occ l u -> no_occ l v -> no_occ l (u ++ 32 :: v).
Proof.
  intros Hne Hl Hu Hv a b E.
  assert (H32 : forall t, starts_with l (32 :: t) = false).
  { intros t. destruct l as [|x l]; [contradiction|]. simpl.
    inversion Hl as [|? ? Hx _]; subst. unfold blank in Hx.
    now rewrite Hx. }
  apply app_eq_app in E. destruct E as [t [[E1 E2]|[E1 E2]]].
  - subst b. destruct (starts_with l (t ++ 32 :: v)) eqn:F; [|reflexivity].
    apply starts_with_reach in F. destruct F as [F|[c [l2 [-> F]]]].
    + now rewrite (Hu a t E1) in F.
    + simpl in F. apply andb_true_iff in F. destruct F as [F _].
      apply N.eqb_eq in F. subst c. apply Forall_app in Hl.
      destruct Hl as [_ Hl]. inversion Hl as [|? ? Hx _]. discriminate.
  - destruct t as [|x t].
    + simpl in E2. subst b. apply H32.
    + injection E2 as _ E2. now apply (Hv t b).
Qed.

Lemma no_occ_join (l : str) (ws : list str) :
  l <> [] -> Forall (fun c => blank c = false) l ->
  Forall (no_occ l) ws -> no_occ l (join (py " ") ws).
Proof.
  intros Hne Hl. induction 1 as [|w ws Hw Hws IH].
  - intros a b E. destruct a; [|discriminate]. simpl in E. subst b.
    destruct l; [contradiction|reflexivity].
  - destruct ws as [|w2 ws]; [exact Hw|].
    change (join (py " ") (w :: w2 :: ws))
      with (w ++ 32 :: join (py " ") (w2 :: ws)).
    now apply no_occ_glue.
Qed.

Lemma join_forall (Q : char -> Prop) (ws : list str) :
  Q 32 -> Forall (Forall Q) ws -> Forall Q (join (py " ") ws).
Proof.
  intros H32. induction 1 as [|w ws Hw Hws IH]; [constructor|].
  destruct ws as [|w2 ws]; [exact Hw|].
  change (join (py " ") (w :: w2 :: ws))
    with (w ++ 32 :: join (py " ") (w2 :: ws)).
  apply Forall_app. split; [exact Hw|]. constructor; assumption.
Qed.

(** The words [str.split] returns: not empty, free of whitespace, and parts
    of the text. *)
Lemma split_from_words (s word : str) :
  Forall (fun c => is_space c = false) word ->
  Forall (fun w => w <> []
                   /\ Forall (fun c => is_space c = false) w
                   /\ exists a b, word ++ s = a ++ w ++ b)
         (split_from word s).
Proof.
  revert word; induction s as [|c s IH]; intros word Hword.
  - destruct word as [|x word]; constructor; [|constructor].
    split; [discriminate|]. split; [assumption|].
    exists [], []. now rewrite !app_nil_r.
  - cbn [split_from]. destruct (is_space c) eqn:Hc.
    + assert (Hrest : Forall (fun w => w <> []
                         /\ Forall (fun c => is_space c = false) w
                         /\ exists a b, word ++ c :: s = a ++ w ++ b)
                        (split_from [] s)).
      { eapply Forall_impl; [|apply (IH [] (Forall_nil _))].
        intros w [H1 [H2 [a [b E]]]]. split; [assumption|].
        split; [assumption|]. exists (word ++ c :: a), b.
        simpl in E. rewrite E. now rewrite <- app_assoc. }
      destruct word as [|x word]; [exact Hrest|].
      constructor; [|exact Hrest].
      split; [discriminate|]. split; [assumption|].
      exists [], (c :: s). reflexivity.
    + eapply Forall_impl; [|apply (IH (word ++ [c]))].
      * intros w [H1 [H2 [a [b E]]]]. split; [assumption|].
        split; [assumption|]. exists a, b. rewrite <- E.
        now rewrite <- app_assoc.
      * apply Forall_app. split; [assumption|]. now repeat constructor.
Qed.

Lemma split_from_app (w word s : str) :
  Forall (fun c => is_space c = false) w ->
  split_from word (w ++ s) = split_from (word ++ w) s.
Proof.
  intros H. revert word; induction H as [|c w Hc Hw IH]; intros word.
  - now rewrite app_nil_r.
  - cbn [app split_from]. rewrite Hc, IH, <- app_assoc. reflexivity.
Qed.

(** Splitting the join of words gives the words back. *)
Lemma split_join (ws : list str) :
  Forall (fun w => w <> [] /\ Forall (fun c => is_space c = false) w) ws ->
  split (join (py " ") ws) = ws.
Proof.
  unfold split. induction 1 as [|w ws [Hne Hw] Hws IH]; [reflexivity|].
  destruct ws as [|w2 ws].
  - cbn [join]. rewrite <- (app_nil_r w) at 1.
    rewrite split_from_app by assumption.
    cbn [app split_from]. destruct w; [contradiction|reflexivity].
  - change (join (py " ") (w :: w2 :: ws))
      with (w ++ 32 :: join (py " ") (w2 :: ws)).
    rewrite split_from_app by assumption. cbn [app split_from].
    change (is_space 32) with true. cbn iota. rewrite IH.
    destruct w; [contradiction|reflexivity].
Qed.

Lemma lstrip_fixed (w : str) :
  Forall (fun c => is_space c = false) w -> lstrip w = w.
Proof. destruct 1 as [|c w Hc _]; [reflexivity|]. simpl. now rewrite Hc. Qed.

Lemma strip_fixed (w : str) :
  Forall (fun c => is_space c = false) w -> strip w = w.
Proof.
  intros H. unfold strip. rewrite (lstrip_fixed H).
  rewrite lstrip_fixed; [apply rev_involutive|]. now apply Forall_rev.
Qed.

Lemma spec_example_before_lemmas :
  re_sub special_char_pattern (fun m => py " " ++ m ++ py " ")
    (re_sub newline_re (fun _ => py " ")
       (remove_digits (remove_accented_chars (remove_hyperlink
          (remove_emails (lower spec_example))))))
  = py "contact me at   or visit    cats".
Proof. vm_compute. reflexivity. Qed.

Lemma all_on_stages (doc : str) :
  preprocess_doc all_on doc
  = remove_stopwords
      (re_sub spaces_re (fun _ => py " ")
         (remove_special_characters
            (lemmatize_text
               (re_sub special_char_pattern (fun m => py " " ++ m ++ py " ")
                  (re_sub newline_re (fun _ => py " ")
                     (remove_digits (remove_accented_chars (remove_hyperlink
                        (remove_emails (lower doc))))))))))
      true.
Proof. reflexivity. Qed.

(** C4. On the example of the specification, with every toggle on, the
    document that reaches the lemmatizer is the one written below; provided
    the lemmatizer returns letters and spaces without [http] for it and the
    tokenizer splits a text of letters and spaces at its spaces, the output
    holds no at sign, no [http], no digit
    (so no numeric token), and is the join by single spaces of its
    whitespace-separated words, none of which is a stopword once
    lower-cased. *)
Theorem spec_example_cleaned :
  let lemmas := lemmatize_text (py "contact me at   or visit    cats") in
  Forall (fun c => is_alpha_az c || blank c = true) lemmas ->
  no_occ (py "http") lemmas ->
  (forall t, Forall (fun c => is_alpha_az c || blank c = true) t ->
             tokenize t = split t) ->
  let out := preprocess_doc all_on spec_example in
  re_sub special_char_pattern (fun m => py " " ++ m ++ py " ")
    (re_sub newline_re (fun _ => py " ")
       (remove_digits (remove_accented_chars (remove_hyperlink
          (remove_emails (lower spec_example))))))
  = py "contact me at   or visit    cats"
  /\ ~ In 64 out
  /\ no_occ (py "http") out
  /\ Forall (fun c => is_digit c = false) out
  /\ exists words,
       out = join (py " ") words
       /\ split out = words
       /\ Forall (fun w => w <> []
                           /\ Forall (fun c => is_space c = false) w
                           /\ in_list (lower w) stopword_list = false)
                  words.
Proof.
  intros lemmas Hletters Hhttp Htok out.
  set (Q := fun c : char => is_alpha_az c || blank c = true) in *.
  assert (Q32 : Q 32) by reflexivity.
  assert (Nh : py "http" <> []) by discriminate.
  assert (Bh : Forall (fun c => barrier c = false) (py "http"))
    by (repeat constructor).
  assert (Bb : Forall (fun c => blank c = false) (py "http"))
    by (repeat constructor).
  (* the document that reaches the stopword removal *)
  set (w := re_sub spaces_re (fun _ => py " ")
              (remove_special_characters lemmas)).
  assert (Eout : out = remove_stopwords w true).
  { subst out w lemmas. rewrite all_on_stages.
    now rewrite spec_example_before_lemmas. }
  assert (Ex : remove_special_characters lemmas = lemmas).
  { apply class_stage_fixed. eapply Forall_impl; [|exact Hletters].
    intros c Hc. unfold Q in Hc. char_lia. }
  assert (Qw : Forall Q w).
  { subst w. rewrite Ex. now apply re_sub_space_forall. }
  assert (Hw : no_occ (py "http") w).
  { subst w. rewrite Ex. now apply re_sub_space_no_occ. }
  (* its tokens *)
  pose proof (split_from_words w (Forall_nil _)) as Hsplit.
  fold (split w) in Hsplit. cbn [app] in Hsplit.
  set (kept := filter (fun token =>
                 negb (in_list (lower token) stopword_list)) (split w)).
  assert (Ekept : out = join (py " ") kept).
  { rewrite Eout. unfold remove_stopwords. rewrite (Htok w Qw).
    replace (map strip (split w)) with (split w); [reflexivity|].
    symmetry. rewrite <- (map_id (split w)) at 2. apply map_ext_in.
    intros t Ht. rewrite Forall_forall in Hsplit.
    destruct (Hsplit t Ht) as [_ [Hs _]]. now apply strip_fixed. }
  assert (Hkept : Forall (fun t => t <> []
                     /\ Forall (fun c => is_space c = false) t
                     /\ (exists a b, w = a ++ t ++ b)
                     /\ in_list (lower t) stopword_list = false) kept).
  { apply Forall_forall. intros t Ht. apply filter_In in Ht.
    destruct Ht as [Ht Hstop]. rewrite Forall_forall in Hsplit.
    destruct (Hsplit t Ht) as [H1 [H2 H3]]. repeat split; auto.
    now apply negb_true_iff in Hstop. }
  assert (Qout : Forall Q out).
  { rewrite Ekept. apply join_forall; [exact Q32|].
    eapply Forall_impl; [|exact Hkept].
    intros t [_ [_ [[a [b E]] _]]]. rewrite E in Qw.
    apply Forall_app in Qw. destruct Qw as [_ Qw].
    now apply Forall_app in Qw. }
  split; [apply spec_example_before_lemmas|].
  split; [|split; [|split]].
  - intros Hin. rewrite Forall_forall in Qout. specialize (Qout _ Hin).
    discriminate.
  - rewrite Ekept. apply no_occ_join; auto.
    eapply Forall_impl; [|exact Hkept].
    intros t [_ [_ [[a [b E]] _]]]. eapply no_occ_part; eauto.
  - eapply Forall_impl; [|exact Qout]. intros c Hc. unfold Q in Hc.
    unfold is_digit. destruct (is_ascii c) eqn:Ha.
    + char_lia.
    + exfalso. char_lia.
  - exists kept. split; [exact Ekept|]. split.
    + rewrite Ekept. apply split_join.
      eapply Forall_impl; [|exact Hkept]. intros t [H1 [H2 _]]. auto.
    + eapply Forall_impl; [|exact Hkept]. intros t [H1 [H2 [_ H4]]]. auto.
Qed.

End SpecExample.

(** * Further properties of the cleaning functions *)

Section Removals.

Context {X : Externals}.

Lemma match_at_le (r : regex) (prev : option char) (s : str) (n : nat) :
  match_at r prev s = Some n -> (n <= length s)%nat.
Proof.
  unfold match_at. destruct (sre_match r Some (prev, s)) as [[p rest]|];
    [|discriminate].
  intros H. injection H as <-. lia.
Qed.

(** A substitution by one character never lengthens the text. *)
Lemma sub_from_shorter (r : regex) (n : nat) (prev : option char) (s : str) :
  (n <= length s)%nat ->
  (length (sub_from r (fun _ => py " ") n prev s) + n <= length s)%nat.
Proof.
  revert n prev; induction s as [|c s IH]; intros n prev Hn.
  - simpl in *. lia.
  - destruct n as [|n]; cbn [sub_from].
    + destruct (match_at r prev (c :: s)) as [[|k]|] eqn:E.
      * cbn [length]. specialize (IH 0%nat (Some c)). lia.
      * apply match_at_le in E. cbn [length] in E.
        rewrite length_app. cbn [length py].
        specialize (IH k (Some c)). simpl. lia.
      * cbn [length]. specialize (IH 0%nat (Some c)). lia.
    + cbn [length] in *. specialize (IH n (Some c)). lia.
Qed.

Lemma re_sub_shorter (r : regex) (s : str) :
  (length (re_sub r (fun _ => py " ") s) <= length s)%nat.
Proof.
  pose proof (@sub_from_shorter r 0 None s). unfold re_sub. lia.
Qed.

(** X1. After [remove_hyperlink] neither [http://] nor [https://] occurs
    anywhere in the text, so removing the links again changes nothing; the
    function returns its argument exactly when no link starts in it, and
    its result is never longer than its argument. *)
Theorem remove_hyperlink_complete (s : str) :
  no_occ (py "http://") (remove_hyperlink s)
  /\ no_occ (py "https://") (remove_hyperlink s)
  /\ remove_hyperlink (remove_hyperlink s) = remove_hyperlink s
  /\ (remove_hyperlink s = s
      <-> no_occ (py "http://") s /\ no_occ (py "https://") s)
  /\ (length (remove_hyperlink s) <= length s)%nat.
Proof.
  destruct (no_link_after s) as [H1 H2].
  split; [exact H1|]. split; [exact H2|].
  split; [now apply remove_hyperlink_fixed|]. split.
  - split.
    + intros E. rewrite <- E. now split.
    + intros [Ha Hb]. now apply remove_hyperlink_fixed.
  - apply re_sub_shorter.
Qed.

Lemma flat_map_single (p : char -> bool) (s : str) :
  flat_map (fun c => if p c then py " " else [c]) s
  = map (fun c => if p c then 32 else c) s.
Proof.
  induction s as [|c s IH]; [reflexivity|]. simpl. rewrite IH.
  now destruct (p c).
Qed.

(** X2. [remove_special_characters] works character by character: every
    character that is neither one of the 52 ASCII letters nor whitespace
    becomes one space and every other character stays, so the length is
    kept, the result holds only ASCII letters and whitespace, and a second
    application changes nothing. *)
Theorem remove_special_characters_map (s : str) :
  remove_special_characters s
  = map (fun c => if is_alpha_az c || is_space c then c else 32) s
  /\ length (remove_special_characters s) = length s
  /\ Forall (fun c => is_alpha_az c || is_space c = true)
            (remove_special_characters s)
  /\ remove_special_characters (remove_special_characters s)
     = remove_special_characters s.
Proof.
  assert (E : remove_special_characters s
              = map (fun c => if is_alpha_az c || is_space c then c else 32) s).
  { unfold remove_special_characters, re_sub, special_re.
    rewrite re_sub_cls, flat_map_single. apply map_ext. intros c.
    unfold not_alpha_space. now destruct (is_alpha_az c || is_space c). }
  split; [exact E|]. split; [rewrite E; apply length_map|].
  split; [apply alpha_space_after|].
  apply class_stage_fixed. eapply Forall_impl; [|apply alpha_space_after].
  intros c Hc. unfold not_alpha_space. now rewrite Hc.
Qed.

Lemma remove_accented_chars_ascii_out (s : str) :
  Forall (fun c => is_ascii c = true) (remove_accented_chars s).
Proof.
  unfold remove_accented_chars, decode_utf8_ignore, encode_ascii_ignore.
  apply Forall_forall. intros c Hc. now apply filter_In in Hc.
Qed.

(** X3. Whatever the Unicode tables say, the result of
    [remove_accented_chars] is pure ASCII; an ASCII text is returned as it
    is, so a second application changes nothing. *)
Theorem remove_accented_chars_ascii (s : str) :
  Forall (fun c => is_ascii c = true) (remove_accented_chars s)
  /\ (Forall (fun c => is_ascii c = true) s -> remove_accented_chars s = s)
  /\ remove_accented_chars (remove_accented_chars s)
     = remove_accented_chars s.
Proof.
  assert (H : Forall (fun c => is_ascii c = true) (remove_accented_chars s))
    by apply remove_accented_chars_ascii_out.
  split; [exact H|]. split; [apply remove_accented_ascii|].
  now apply remove_accented_ascii.
Qed.

Lemma scan_digit_first (s : str) :
  digit_first (strip_spaced_digits false s) = true -> digit_first s = true.
Proof.
  destruct s as [|c s]; [discriminate|].
  cbn [strip_spaced_digits andb].
  destruct (is_space c && match s with d :: _ => is_digit d | [] => false end);
    [discriminate|]. auto.
Qed.

Lemma scan_settled (s : str) :
  spaced_digit (strip_spaced_digits false s) = false
  /\ spaced_digit (strip_spaced_digits true s) = false
  /\ digit_first (strip_spaced_digits true s) = false.
Proof.
  induction s as [|c s [IH0 [IH1 IH2]]]; [repeat split|].
  assert (Hcopy : (is_space c && digit_first s) = false ->
                  spaced_digit (c :: strip_spaced_digits false s) = false).
  { intros Hm. cbn [spaced_digit]. rewrite IH0, orb_false_r.
    fold (digit_first (strip_spaced_digits false s)).
    destruct (is_space c); [|reflexivity]. cbn [andb] in *.
    destruct (digit_first (strip_spaced_digits false s)) eqn:F;
      [|reflexivity].
    apply scan_digit_first in F. congruence. }
  assert (Hmatch : spaced_digit (SPACE :: strip_spaced_digits true s) = false).
  { cbn [spaced_digit]. rewrite IH1, orb_false_r.
    fold (digit_first (strip_spaced_digits true s)). rewrite IH2.
    apply andb_false_r. }
  assert (H0 : spaced_digit (strip_spaced_digits false (c :: s)) = false).
  { cbn [strip_spaced_digits andb]. fold (digit_first s).
    destruct (is_space c && digit_first s) eqn:Hm; auto. }
  split; [exact H0|].
  cbn [strip_spaced_digits]. destruct (is_digit c) eqn:Hd; cbn [andb].
  - split; assumption.
  - fold (digit_first s).
    destruct (is_space c && digit_first s) eqn:Hm.
    + split; [exact Hmatch|reflexivity].
    + split; [now apply Hcopy|]. exact Hd.
Qed.

(** X4. In the result of [remove_digits] no whitespace character has a digit
    right after it, so removing digits again changes nothing; the result is
    never longer than the argument. *)
Theorem remove_digits_settles (s : str) :
  spaced_digit (remove_digits s) = false
  /\ remove_digits (remove_digits s) = remove_digits s
  /\ (length (remove_digits s) <= length s)%nat.
Proof.
  assert (E : forall t, remove_digits t = strip_spaced_digits false t)
    by (intros t; apply sub_digits_scan).
  assert (H : spaced_digit (remove_digits s) = false)
    by (rewrite E; apply scan_settled).
  split; [exact H|]. split; [|apply re_sub_shorter].
  rewrite (E (remove_digits s)). now apply scan_without_spaced_digit.
Qed.

End Removals.

Section UntoggledStages.

Context {X : Externals}.

Lemma email_match_at_sign (prev : option char) (s : str) (n : nat) :
  match_at email_re prev s = Some n -> In 64 s.
Proof.
  unfold match_at, email_re. cbn [sre_match fst snd].
  destruct (at_boundary (prev, s)); [|discriminate].
  destruct s as [|c s]; [discriminate|].
  destruct (not_space c); [|discriminate].
  destruct (greedy _ _ _ _) as [r|] eqn:G; [|discriminate]. intros _.
  apply greedy_sound in G. destruct G as [m [rest [-> [_ G]]]].
  cbn [fst snd] in G. rewrite literal_starts in G.
  destruct (starts_with (py "@") rest) eqn:E1; [|discriminate].
  apply starts_with_app in E1. rewrite E1.
  right. apply in_or_app. right. now left.
Qed.

(** X5. [remove_emails] returns its argument when the text holds no at
    sign, when it holds no dot, and when every dot in it is followed by
    whitespace or ends the text; its result is never longer than its
    argument. *)
Theorem remove_emails_needs_address (s : str) :
  (~ In 64 s -> remove_emails s = s)
  /\ (~ In 46 s -> remove_emails s = s)
  /\ ((forall a d b, s = a ++ 46 :: d :: b -> is_space d = true)
      -> remove_emails s = s)
  /\ (length (remove_emails s) <= length s)%nat.
Proof.
  split; [|split; [|split; [apply remove_emails_fixed|apply re_sub_shorter]]].
  - intros H. apply re_sub_no_match. intros a b E.
    destruct (match_at email_re (last_char None a) b) as [n|] eqn:Em;
      [|reflexivity].
    apply email_match_at_sign in Em. exfalso. apply H. subst s.
    apply in_or_app. now right.
  - intros H. apply remove_emails_fixed. intros a d b E. exfalso.
    apply H. subst s. apply in_or_app. right. now left.
Qed.

(** Squeezing only drops characters of the class and writes spaces. *)
Lemma squeeze_text (p : char -> bool) (s : str) (b : bool) :
  filter (fun c => negb (blank c)) (squeeze p b s)
  = filter (fun c => negb (blank c) && negb (p c)) s.
Proof.
  revert b; induction s as [|c s IH]; intros b; [reflexivity|].
  cbn [squeeze filter]. destruct (p c) eqn:Hc.
  - rewrite andb_false_r. destruct b; [apply IH|].
    cbn [filter]. change (blank SPACE) with true. cbn [negb]. apply IH.
  - rewrite andb_true_r. cbn [filter]. now rewrite IH.
Qed.

Lemma squeeze_shorter (p : char -> bool) (s : str) (b : bool) :
  (length (squeeze p b s) <= length s)%nat.
Proof.
  revert b; induction s as [|c s IH]; intros b; [simpl; lia|].
  pose proof (IH true). pose proof (IH false).
  cbn [squeeze]. destruct (p c); [destruct b|]; cbn [length]; lia.
Qed.

(** X6. The newline stage of [text_preprocessing] turns every run of
    carriage returns, line feeds and vertical bars (the bar stands in the
    character class) into one space and copies the rest: its result holds
    none of the three characters, its characters other than spaces are those
    of the argument outside the class, in their order, it is not longer
    than the argument, and the stage leaves it unchanged. *)
Theorem newline_stage_clears (s : str) :
  let out := re_sub newline_re (fun _ => py " ") s in
  out = squeeze newline_class false s
  /\ (forall c, newline_class c = true <-> c = 13 \/ c = 10 \/ c = 124)
  /\ Forall (fun c => c <> 13 /\ c <> 10 /\ c <> 124) out
  /\ filter (fun c => negb (blank c)) out
     = filter (fun c => negb (blank c) && negb (newline_class c)) s
  /\ (length out <= length s)%nat
  /\ re_sub newline_re (fun _ => py " ") out = out.
Proof.
  intros out.
  assert (E : out = squeeze newline_class false s) by apply re_sub_many1.
  assert (C : forall c, newline_class c = true <-> c = 13 \/ c = 10 \/ c = 124).
  { intros c. char_lia. }
  split; [exact E|]. split; [exact C|]. split; [|split; [|split]].
  - eapply Forall_impl; [|apply newline_free]. intros c Hc.
    cbv beta in Hc. repeat split; intros ->; discriminate.
  - rewrite E. apply squeeze_text.
  - rewrite E. apply squeeze_shorter.
  - apply run_stage_fixed. apply newline_free.
Qed.

Lemma special_class_six (c : char) :
  special_class c = existsb (N.eqb c) (py "{.()!}").
Proof.
  apply eq_iff_eq_true. cbn [py list_ascii_of_string map existsb].
  change (N_of_ascii "{") with 123. change (N_of_ascii ".") with 46.
  change (N_of_ascii "(") with 40. change (N_of_ascii ")") with 41.
  change (N_of_ascii "!") with 33. change (N_of_ascii "}") with 125.
  char_lia.
Qed.

Lemma pad_length (q : char -> bool) (s : str) :
  length (flat_map (fun c => if q c then [32; c; 32] else [c]) s)
  = (length s + 2 * length (filter q s))%nat.
Proof.
  induction s as [|c s IH]; [reflexivity|]. cbn [flat_map filter].
  rewrite length_app, IH. destruct (q c); cbn [length]; lia.
Qed.

Lemma pad_text (q : char -> bool) (s : str) :
  filter (fun c => negb (blank c))
    (flat_map (fun c => if q c then [32; c; 32] else [c]) s)
  = filter (fun c => negb (blank c)) s.
Proof.
  induction s as [|c s IH]; [reflexivity|]. cbn [flat_map].
  destruct (q c); cbn [app filter]; change (blank 32) with true;
    cbn [negb]; destruct (negb (blank c)); cbn [filter];
    change (blank 32) with true; cbn [negb]; now rewrite IH.
Qed.

(** X7. The spacing stage of [text_preprocessing] puts a space on each side
    of every occurrence of the six characters [{ . ( ) ! }] and of no other
    character (the hyphen in the class only forms the range from ( to )):
    the result is longer by two for each such character, and without its
    spaces it is the argument without its spaces. *)
Theorem spacing_stage_six (s : str) :
  let six := fun c => existsb (N.eqb c) (py "{.()!}") in
  let out := re_sub special_char_pattern (fun m => py " " ++ m ++ py " ") s in
  out = flat_map (fun c => if six c then [32; c; 32] else [c]) s
  /\ length out = (length s + 2 * length (filter six s))%nat
  /\ filter (fun c => negb (blank c)) out = filter (fun c => negb (blank c)) s.
Proof.
  intros six out.
  assert (E : out = flat_map (fun c => if six c then [32; c; 32] else [c]) s).
  { subst out. rewrite spacing_stage. apply flat_map_ext. intros c.
    unfold spacing, six. now rewrite special_class_six. }
  split; [exact E|]. rewrite E.
  split; [apply pad_length|apply pad_text].
Qed.

Lemma squeeze_no_double (s : str) :
  occurs_nowhere (py "  ") (squeeze blank false s) = true
  /\ occurs_nowhere (py "  ") (squeeze blank true s) = true
  /\ starts_with (py " ") (squeeze blank true s) = false.
Proof.
  change (py "  ") with [32; 32]. change (py " ") with [32].
  induction s as [|c s [IH0 [IH1 IH2]]]; [repeat split|].
  cbn [squeeze]. destruct (blank c) eqn:Hc.
  - repeat split; try assumption.
    cbn [occurs_nowhere starts_with]. change (32 =? SPACE) with true.
    cbn [andb]. cbn [starts_with] in IH2. rewrite IH2. exact IH1.
  - assert (H32 : (32 =? c) = false).
    { unfold blank in Hc. now rewrite N.eqb_sym. }
    repeat split; cbn [occurs_nowhere starts_with]; rewrite H32; auto.
Qed.

(** X8. The whitespace stage of [text_preprocessing] leaves no two adjacent
    spaces; it removes spaces only (a tab is kept), so the characters other
    than spaces are those of the argument in their order; its result is not
    longer than the argument and the stage leaves it unchanged. *)
Theorem spaces_stage_single (s : str) :
  let out := re_sub spaces_re (fun _ => py " ") s in
  no_occ (py "  ") out
  /\ filter (fun c => negb (blank c)) out = filter (fun c => negb (blank c)) s
  /\ (length out <= length s)%nat
  /\ re_sub spaces_re (fun _ => py " ") out = out.
Proof.
  intros out.
  assert (E : out = squeeze blank false s) by apply spaces_stage.
  rewrite E. split; [|split; [|split]].
  - apply occurs_nowhere_no_occ. apply squeeze_no_double.
  - rewrite squeeze_text. apply filter_ext. intros c. apply andb_diag.
  - apply squeeze_shorter.
  - rewrite spaces_stage. now apply squeeze_idem.
Qed.

End UntoggledStages.

(** * Further properties of the pipeline and of the frame *)

Section CleanedText.

Context {X : Externals}.

(** X9. With stopword removal off, whatever the other toggles and the
    libraries do, a cleaned document holds no two adjacent spaces; and if
    special-character removal is on, it holds only ASCII letters and
    whitespace. *)
Theorem cleaned_single_spaced (cfg : NormalizationConfig) (doc : str) :
  stopword_removal cfg = false ->
  no_occ (py "  ") (preprocess_doc cfg doc)
  /\ (isRemoveSpecialCharac cfg = true ->
      Forall (fun c => is_alpha_az c || is_space c = true)
             (preprocess_doc cfg doc)).
Proof.
  destruct cfg as [fE fD fH fX fA fL fLm fSw].
  cbn [stopword_removal isRemoveSpecialCharac]. intros ->.
  unfold preprocess_doc.
  cbn [text_lower_case isRemoveEmail isRemoveHyperLink isRemoveAccentChar
       isRemoveDigits text_lemmatization isRemoveSpecialCharac
       stopword_removal].
  match goal with
  | |- context [if fLm then lemmatize_text ?d else ?d] =>
      generalize (if fLm then lemmatize_text d else d)
  end.
  intros d8. split.
  - rewrite spaces_stage. apply occurs_nowhere_no_occ, squeeze_no_double.
  - intros ->. apply re_sub_space_forall; [reflexivity|].
    apply alpha_space_after.
Qed.

(** X10. With lemmatization and stopword removal off, whatever the other
    toggles and the Unicode tables, a cleaned document holds no carriage
    return, no line feed and no vertical bar; and if accent removal is on,
    it is pure ASCII. *)
Theorem cleaned_one_line (cfg : NormalizationConfig) (doc : str) :
  text_lemmatization cfg = false -> stopword_removal cfg = false ->
  Forall (fun c => c <> 13 /\ c <> 10 /\ c <> 124) (preprocess_doc cfg doc)
  /\ (isRemoveAccentChar cfg = true ->
      Forall (fun c => is_ascii c = true) (preprocess_doc cfg doc)).
Proof.
  destruct cfg as [fE fD fH fX fA fL fLm fSw].
  cbn [text_lemmatization stopword_removal isRemoveAccentChar].
  intros -> ->. unfold preprocess_doc.
  cbn [text_lower_case isRemoveEmail isRemoveHyperLink isRemoveAccentChar
       isRemoveDigits text_lemmatization isRemoveSpecialCharac
       stopword_removal].
  match goal with
  | |- context [if fA then remove_accented_chars ?d else ?d] =>
      generalize d
  end.
  intros d3.
  assert (tail : forall (Q : char -> Prop) (d : str), Q 32 -> Forall Q d ->
            Forall Q
              (re_sub spaces_re (fun _ => py " ")
                 (if fX
                  then remove_special_characters
                         (re_sub special_char_pattern
                            (fun m => py " " ++ m ++ py " ") d)
                  else re_sub special_char_pattern
                         (fun m => py " " ++ m ++ py " ") d))).
  { intros Q d Q32 Hd. apply re_sub_space_forall; [exact Q32|].
    destruct fX; [apply re_sub_space_forall; [exact Q32|]|];
      now apply spacing_forall. }
  split.
  - eapply Forall_impl;
      [|apply (tail (fun c => newline_class c = false));
        [reflexivity|apply newline_free]].
    intros c Hc. cbv beta in Hc. repeat split; intros ->; discriminate.
  - intros ->. apply tail; [reflexivity|].
    apply re_sub_space_forall; [reflexivity|].
    assert (H4 : Forall (fun c => is_ascii c = true)
                   (remove_accented_chars d3))
      by apply remove_accented_chars_ascii_out.
    destruct fD; [now apply re_sub_space_forall|exact H4].
Qed.

(** X11. For a document of ASCII characters, with lemmatization and
    stopword removal off, the cleaned document is ASCII; if lower-casing is
    on it holds no capital letter, and if hyperlink removal is on neither
    [http://] nor [https://] occurs in it. *)
Theorem cleaned_ascii_document (cfg : NormalizationConfig) (doc : str) :
  Forall (fun c => is_ascii c = true) doc ->
  text_lemmatization cfg = false -> stopword_removal cfg = false ->
  Forall (fun c => is_ascii c = true) (preprocess_doc cfg doc)
  /\ (text_lower_case cfg = true ->
      Forall (fun c => is_upper_az c = false) (preprocess_doc cfg doc))
  /\ (isRemoveHyperLink cfg = true ->
      no_occ (py "http://") (preprocess_doc cfg doc)
      /\ no_occ (py "https://") (preprocess_doc cfg doc)).
Proof.
  intros Hasc Hl Hs.
  destruct (first_pass_cleaned cfg Hasc Hl Hs) as [I [_ [L _]]].
  split; [|split; [|exact L]].
  - eapply Forall_impl; [|exact I]. intros c [Hc _]. exact Hc.
  - intros HL. eapply Forall_impl; [|exact I]. intros c [_ Hc]. auto.
Qed.

(** X12. [text_preprocessing] cleans each document on its own and keeps the
    order: the result for two corpora one after the other is the two
    results one after the other, and the entry at each index is the cleaned
    document of that index (none past the end). *)
Theorem text_preprocessing_pointwise (cfg : NormalizationConfig)
    (corpus more : list str) (i : nat) :
  text_preprocessing (corpus ++ more) cfg
  = text_preprocessing corpus cfg ++ text_preprocessing more cfg
  /\ nth_error (text_preprocessing corpus cfg) i
     = option_map (preprocess_doc cfg) (nth_error corpus i).
Proof.
  rewrite !text_preprocessing_map. split; [apply map_app|].
  apply nth_error_map.
Qed.

End CleanedText.

Section FrameFacts.

Context {X : Externals}.

Lemma encode_clean_rows (cfg : NormalizationConfig) (cl : list str)
    (df : list Row) :
  map (fun '(r, e) => {| sample_sentence := Str (sentence r);
                         sample_label := e |})
      (combine
         (map (fun '(r, s) => {| label := label r;
                                 sentence := str_slice_63 s |})
              (combine df (map (preprocess_doc cfg) (map sentence df))))
         (map (fun l => index_of l cl) (map label df)))
  = map (sample_of cfg cl) df.
Proof.
  induction df as [|r df IH]; simpl; [reflexivity|].
  f_equal. exact IH.
Qed.

Lemma final_frame_samples (cfg : NormalizationConfig) (df : list Row) :
  final_frame cfg df
  = filter nonempty_sentence
      (map (sample_of cfg (unique (map label df))) df).
Proof.
  unfold final_frame. rewrite dropna_replace_empty.
  unfold encode_frame, fit_transform. rewrite clean_frame_labels.
  unfold clean_frame. rewrite text_preprocessing_map.
  now rewrite encode_clean_rows.
Qed.

Lemma preprocess_doc_tail (cfg : NormalizationConfig) (doc : str) :
  stopword_removal cfg = false ->
  exists d,
    preprocess_doc cfg doc
    = re_sub spaces_re (fun _ => py " ")
        (if isRemoveSpecialCharac cfg
         then remove_special_characters d else d).
Proof.
  destruct cfg as [fE fD fH fX fA fL fLm fSw].
  cbn [stopword_removal isRemoveSpecialCharac]. intros ->.
  unfold preprocess_doc.
  cbn [text_lower_case isRemoveEmail isRemoveHyperLink isRemoveAccentChar
       isRemoveDigits text_lemmatization isRemoveSpecialCharac
       stopword_removal].
  eexists. reflexivity.
Qed.

(** X13. The frame handed to the split, row by row: every row of the input
    becomes its cut, cleaned sentence with the code its label has among the
    labels of the whole input, and then the rows with an empty sentence are
    left out, the others keeping their order. The codes are those given
    before any row is dropped, each below the number of distinct labels, and
    no row is added. *)
Theorem final_frame_rows (cfg : NormalizationConfig) (df : list Row) :
  let classes_ := unique (map label df) in
  final_frame cfg df
  = filter nonempty_sentence (map (sample_of cfg classes_) df)
  /\ Forall (fun r => (sample_label r < length classes_)%nat)
            (final_frame cfg df)
  /\ (length (final_frame cfg df) <= length df)%nat.
Proof.
  intros classes_. pose proof (final_frame_samples cfg df) as E.
  fold classes_ in E.
  split; [exact E|]. rewrite E. split.
  - apply Forall_forall. intros r Hr. apply filter_In in Hr.
    destruct Hr as [Hr _]. apply in_map_iff in Hr.
    destruct Hr as [row [<- Hrow]]. cbn [sample_of sample_label].
    apply nth_error_Some. rewrite index_of_nth; [discriminate|].
    apply unique_in. now apply in_map.
  - etransitivity; [apply filter_length_le|]. now rewrite length_map.
Qed.

(** X19. Every sentence of the frame handed to the split has between 1 and
    63 characters; with stopword removal off it holds no two adjacent
    spaces, and if special-character removal is on as well, only ASCII
    letters and whitespace. *)
Theorem final_frame_sentences (cfg : NormalizationConfig) (df : list Row) :
  Forall (fun r =>
            exists s,
              sample_sentence r = Str s
              /\ (1 <= length s <= 63)%nat
              /\ (stopword_removal cfg = false ->
                  no_occ (py "  ") s
                  /\ (isRemoveSpecialCharac cfg = true ->
                      Forall (fun c => is_alpha_az c || is_space c = true) s)))
         (final_frame cfg df).
Proof.
  rewrite final_frame_samples. apply Forall_forall. intros r Hr.
  apply filter_In in Hr. destruct Hr as [Hr Hne].
  apply in_map_iff in Hr. destruct Hr as [row [<- _]].
  cbn [sample_of sample_sentence nonempty_sentence] in *.
  eexists. split; [reflexivity|].
  unfold str_slice_63 in *.
  remember (preprocess_doc cfg (sentence row)) as out eqn:Eout.
  split.
  - split; [|apply firstn_le_length].
    destruct (firstn 63 out); [discriminate|cbn [length]; lia].
  - intros Hs. destruct (preprocess_doc_tail cfg (sentence row) Hs) as [d Ed].
    rewrite <- Eout in Ed. split.
    + apply (@no_occ_part (py "  ") out [] (firstn 63 out) (skipn 63 out)).
      * rewrite Ed, spaces_stage.
        apply occurs_nowhere_no_occ, squeeze_no_double.
      * cbn [app]. symmetry. apply firstn_skipn.
    + intros HX. rewrite HX in Ed. apply Forall_forall. intros c Hc.
      apply in_firstn in Hc. revert c Hc. apply Forall_forall.
      rewrite Ed. apply re_sub_space_forall; [reflexivity|].
      apply alpha_space_after.
Qed.

(** X14. Cleaning changes neither the number of rows nor the label
    mapping: the rows written to [category_map.csv] are the same for every
    choice of toggles, and the same as for the uncleaned frame. *)
Theorem category_map_ignores_cleaning (cfg cfg' : NormalizationConfig)
    (df : list Row) :
  length (clean_frame cfg df) = length df
  /\ category_map (clean_frame cfg df) = category_map df
  /\ category_map (clean_frame cfg df) = category_map (clean_frame cfg' df).
Proof.
  assert (L : forall c, category_map (clean_frame c df) = category_map df).
  { intros c. unfold category_map. now rewrite clean_frame_labels. }
  split; [|split; [apply L|now rewrite !L]].
  rewrite <- (length_map label (clean_frame cfg df)), clean_frame_labels.
  apply length_map.
Qed.

End FrameFacts.

Lemma lt_str_irrefl (a : str) : ~ lt_str a a.
Proof. unfold lt_str. rewrite str_compare_refl. discriminate. Qed.

Lemma lt_str_asym (a b : str) : lt_str a b -> lt_str b a -> False.
Proof.
  intros H1 H2. apply (lt_str_irrefl (a := a)).
  exact (str_compare_lt_trans _ _ _ H1 H2).
Qed.

Lemma sorted_same_labels (l1 l2 : list str) :
  StronglySorted lt_str l1 -> StronglySorted lt_str l2 ->
  (forall z, In z l1 <-> In z l2) -> l1 = l2.
Proof.
  intros H1; revert l2; induction H1 as [|a l1 Hl1 IH Ha];
    intros l2 H2 Hin.
  - destruct l2 as [|b l2]; [reflexivity|].
    exfalso. apply (proj2 (Hin b)). now left.
  - destruct H2 as [|b l2 Hl2 Hb].
    + exfalso. apply (proj1 (Hin a)). now left.
    + rewrite Forall_forall in Ha, Hb.
      assert (E : a = b).
      { destruct (proj1 (Hin a) (or_introl eq_refl)) as [E|Ia]; [now subst|].
        destruct (proj2 (Hin b) (or_introl eq_refl)) as [E|Ib]; [assumption|].
        destruct (lt_str_asym (Ha _ Ib) (Hb _ Ia)). }
      subst b. f_equal. apply IH; [assumption|].
      intros z. split; intros Hz.
      * destruct (proj1 (Hin z) (or_intror Hz)) as [E|Iz]; [|assumption].
        subst z. destruct (lt_str_irrefl (Ha _ Hz)).
      * destruct (proj2 (Hin z) (or_intror Hz)) as [E|Iz]; [|assumption].
        subst z. destruct (lt_str_irrefl (Hb _ Hz)).
Qed.

Lemma index_of_sorted (l : list str) (a b : str) :
  StronglySorted lt_str l -> In a l -> In b l -> lt_str a b ->
  (index_of a l < index_of b l)%nat.
Proof.
  intros Hs; induction Hs as [|x l Hl IH Hx]; intros Ia Ib Hab;
    [destruct Ia|].
  rewrite Forall_forall in Hx. cbn [index_of].
  destruct (str_eqb a x) eqn:Eax.
  - apply str_eqb_eq in Eax. subst x.
    destruct (str_eqb b a) eqn:Eba; [|lia].
    apply str_eqb_eq in Eba. subst b. destruct (lt_str_irrefl Hab).
  - assert (Ia' : In a l).
    { destruct Ia as [E|Ia]; [|exact Ia]. subst x.
      rewrite str_eqb_refl in Eax. discriminate. }
    destruct (str_eqb b x) eqn:Ebx.
    + apply str_eqb_eq in Ebx. subst x.
      destruct (lt_str_asym Hab (Hx _ Ia')).
    + assert (Ib' : In b l).
      { destruct Ib as [E|Ib]; [|exact Ib]. subst x.
        rewrite str_eqb_refl in Ebx. discriminate. }
      specialize (IH Ia' Ib' Hab). lia.
Qed.

(** X15. The label mapping depends only on which labels occur: two frames
    with the same set of labels, in whatever order and however often, get
    the same [category_map.csv] and give every label the same code. *)
Theorem category_map_of_label_set (df1 df2 : list Row) :
  (forall l, In l (map label df1) <-> In l (map label df2)) ->
  category_map df1 = category_map df2
  /\ forall l, index_of l (unique (map label df1))
               = index_of l (unique (map label df2)).
Proof.
  intros H.
  assert (E : unique (map label df1) = unique (map label df2)).
  { apply sorted_same_labels; try apply unique_sorted.
    intros z. rewrite !unique_in. apply H. }
  split; [now rewrite !category_map_rows, E|].
  intros l. now rewrite E.
Qed.

(** X16. The codes follow the order of the labels: of two labels of the
    fitted column, the one that comes first by code point has the smaller
    code, and two labels have the same code only if they are the same. *)
Theorem codes_follow_order (y : list str) (a b : str) :
  In a y -> In b y ->
  (str_compare a b = Lt
   <-> (index_of a (unique y) < index_of b (unique y))%nat)
  /\ (a = b <-> index_of a (unique y) = index_of b (unique y)).
Proof.
  intros Ia Ib.
  apply (proj2 (unique_in y a)) in Ia. apply (proj2 (unique_in y b)) in Ib.
  pose proof (unique_sorted y) as Hs.
  assert (Inj : index_of a (unique y) = index_of b (unique y) -> a = b).
  { intros E. pose proof (index_of_nth _ _ Ia) as Na.
    pose proof (index_of_nth _ _ Ib) as Nb. rewrite E in Na. congruence. }
  split; [|split; [now intros ->|exact Inj]].
  split; [now apply index_of_sorted|].
  intros Hlt. destruct (str_compare a b) eqn:C; [| reflexivity |].
  - apply str_compare_eq in C. subst b. lia.
  - apply str_compare_gt_lt in C.
    pose proof (index_of_sorted Hs Ib Ia C). lia.
Qed.

Lemma iloc_rows (A : Type) (df : list A) (ind : list nat) (rows : list A) :
  iloc df ind = Some rows ->
  length rows = length ind /\ Forall (fun r => In r df) rows.
Proof.
  revert rows; induction ind as [|i ind IH]; intros rows H; cbn [iloc] in H.
  - injection H as <-. split; [reflexivity|constructor].
  - destruct (nth_error df i) as [r|] eqn:Hr; [|discriminate].
    destruct (iloc df ind) as [rs|]; [|discriminate].
    injection H as <-. destruct (IH rs eq_refl) as [L F].
    split; [cbn [length]; now rewrite L|].
    constructor; [now apply nth_error_In in Hr|exact F].
Qed.

(** X17. When [train_test_split] returns, the frame had at least two rows
    (with fewer it raises, whatever the generator draws), every returned row
    is a row of the frame, and, the draw being as long as the frame, the
    held-out part has a quarter of the rows rounded up, is not empty and is
    no longer than the training part. *)
Theorem split_returns_bounds (A : Type) (permutation : list nat)
    (df train test : list A) :
  train_test_split permutation df = Some (train, test) ->
  (2 <= length df)%nat
  /\ Forall (fun r => In r df) train
  /\ Forall (fun r => In r df) test
  /\ (length permutation = length df ->
      length test = ((length df + 3) / 4)%nat
      /\ (length train + length test = length df)%nat
      /\ (1 <= length test <= length train)%nat
      /\ (length df <= 4 * length test < length df + 4)%nat).
Proof.
  unfold train_test_split. cbv zeta.
  destruct (Nat.eqb_spec (length df - (length df + 3) / 4) 0) as [E|E];
    [discriminate|].
  destruct (iloc df (firstn (length df - (length df + 3) / 4)
                       (skipn ((length df + 3) / 4) permutation)))
    as [tr|] eqn:Htr; [|discriminate].
  destruct (iloc df (firstn ((length df + 3) / 4) permutation))
    as [te|] eqn:Hte; [|discriminate].
  intros H. injection H as <- <-.
  destruct (iloc_rows _ _ Htr) as [Ltr Ftr].
  destruct (iloc_rows _ _ Hte) as [Lte Fte].
  assert (Hn : (2 <= length df)%nat).
  { destruct (length df) as [|[|n]]; [now elim E|now elim E|lia]. }
  split; [exact Hn|]. split; [exact Ftr|]. split; [exact Fte|].
  intros Hp. rewrite Ltr, Lte, !length_firstn, length_skipn, Hp.
  pose proof (Nat.div_mod_eq (length df + 3) 4) as D.
  pose proof (Nat.mod_upper_bound (length df + 3) 4) as M.
  lia.
Qed.

Lemma replace_char_filter (old : char) (s : str) :
  replace_char old [] s = filter (fun c => negb (c =? old)) s.
Proof.
  unfold replace_char. induction s as [|c s IH]; cbn [flat_map filter];
    [reflexivity|].
  destruct (c =? old); cbn [negb app]; now rewrite IH.
Qed.

Lemma filter_filter (A : Type) (f g : A -> bool) (l : list A) :
  filter f (filter g l) = filter (fun x => g x && f x) l.
Proof.
  induction l as [|x l IH]; cbn [filter]; [reflexivity|].
  destruct (g x); cbn [filter andb]; [destruct (f x)|]; now rewrite IH.
Qed.

(** X18. The endpoint name is the fixed prefix and the three arguments
    between hyphens with every dot and every underscore taken out: neither
    character is left in the name, and if the arguments hold only ASCII
    letters, digits, hyphens, dots and underscores, the name holds only
    ASCII letters, digits and hyphens. *)
Theorem endpoint_name_sanitised (instance_type accelerator_type now : str) :
  let keep := filter (fun c => negb (c =? 46) && negb (c =? 95)) in
  let plain c := is_alpha_az c || is_ascii_digit c || (c =? 45) in
  let dotted c := plain c || (c =? 46) || (c =? 95) in
  endpoint_name instance_type accelerator_type now
  = py "bert-ei-traced-" ++ keep instance_type ++ py "-"
      ++ keep accelerator_type ++ py "-" ++ keep now
  /\ ~ In 46 (endpoint_name instance_type accelerator_type now)
  /\ ~ In 95 (endpoint_name instance_type accelerator_type now)
  /\ (Forall (fun c => dotted c = true)
             (instance_type ++ accelerator_type ++ now) ->
      Forall (fun c => plain c = true)
             (endpoint_name instance_type accelerator_type now)).
Proof.
  intros keep plain dotted.
  assert (E : endpoint_name instance_type accelerator_type now
              = keep (py "bert-ei-traced-" ++ instance_type ++ py "-"
                        ++ accelerator_type ++ py "-" ++ now)).
  { unfold endpoint_name. rewrite !replace_char_filter.
    apply filter_filter. }
  split.
  - rewrite E. unfold keep. rewrite !filter_app. reflexivity.
  - rewrite E. unfold keep. repeat split.
    + intros H. apply filter_In in H. destruct H as [_ H]. discriminate.
    + intros H. apply filter_In in H. destruct H as [_ H]. discriminate.
    + intros H. apply Forall_forall. intros c Hc. apply filter_In in Hc.
      destruct Hc as [Hc Hk].
      assert (P : forall lit, forallb dotted lit = true ->
                              Forall (fun c => dotted c = true) lit).
      { intros lit. apply (proj1 (forallb_Forall dotted lit)). }
      apply Forall_app in H. destruct H as [Hi H].
      apply Forall_app in H. destruct H as [Ha Hn].
      assert (D : dotted c = true).
      { clear Hk. revert c Hc. apply Forall_forall.
        repeat (apply Forall_app; split);
          try assumption; apply P; vm_compute; reflexivity. }
      unfold dotted in D. unfold plain.
      destruct (c =? 46); [discriminate|]. destruct (c =? 95); [discriminate|].
      now rewrite !orb_false_r in D.
Qed.

Section Stopwords.

Context {X : Externals}.

Lemma split_words_letters (t : str) :
  Forall (fun c => is_alpha_az c || blank c = true) t ->
  Forall (fun w => w <> []
                   /\ Forall (fun c => is_space c = false) w
                   /\ Forall (fun c => is_alpha_az c || blank c = true) w)
         (split t).
Proof.
  intros H. unfold split.
  eapply Forall_impl;
    [|apply (@split_from_words t [] (Forall_nil _))].
  intros w [H1 [H2 [a [b E]]]]. split; [exact H1|]. split; [exact H2|].
  cbn [app] in E. rewrite E in H. apply Forall_app in H.
  destruct H as [_ H]. apply Forall_app in H. tauto.
Qed.

Lemma remove_stopwords_words (t : str) (flag : bool) :
  (forall u, Forall (fun c => is_alpha_az c || blank c = true) u ->
             tokenize u = split u) ->
  Forall (fun c => is_alpha_az c || blank c = true) t ->
  remove_stopwords t flag
  = join (py " ")
      (filter (fun w => negb (in_list (lower w) stopword_list)) (split t)).
Proof.
  intros Htok Ht. unfold remove_stopwords. cbv zeta. rewrite (Htok t Ht).
  replace (map strip (split t)) with (split t); [reflexivity|].
  pose proof (split_words_letters Ht) as W. rewrite Forall_forall in W.
  rewrite <- (map_id (split t)) at 1. apply map_ext_in.
  intros w Hw. symmetry. apply strip_fixed. now apply W.
Qed.

(** X20. On a text of ASCII letters and spaces, with a tokenizer that
    splits such a text at its spaces: [remove_stopwords] returns the words of
    the text that are not stopwords when lowered, in their order, one space
    between two; the words of the result are exactly these; and a second
    call changes nothing. *)
Theorem remove_stopwords_settles (t : str) (flag : bool) :
  (forall u, Forall (fun c => is_alpha_az c || blank c = true) u ->
             tokenize u = split u) ->
  Forall (fun c => is_alpha_az c || blank c = true) t ->
  remove_stopwords t flag
  = join (py " ")
      (filter (fun w => negb (in_list (lower w) stopword_list)) (split t))
  /\ split (remove_stopwords t flag)
     = filter (fun w => negb (in_list (lower w) stopword_list)) (split t)
  /\ Forall (fun w => in_list (lower w) stopword_list = false)
            (split (remove_stopwords t flag))
  /\ remove_stopwords (remove_stopwords t flag) flag
     = remove_stopwords t flag.
Proof.
  intros Htok Ht.
  pose proof (remove_stopwords_words flag Htok Ht) as E.
  pose proof (split_words_letters Ht) as W. rewrite Forall_forall in W.
  set (keep := fun w => negb (in_list (lower w) stopword_list)) in *.
  assert (S1 : split (remove_stopwords t flag) = filter keep (split t)).
  { rewrite E. apply split_join. apply Forall_forall. intros w Hw.
    apply filter_In in Hw. destruct Hw as [Hw _].
    destruct (W w Hw) as [A [B _]]. now split. }
  assert (Hout : Forall (fun c => is_alpha_az c || blank c = true)
                   (remove_stopwords t flag)).
  { rewrite E.
    apply (@join_forall (fun c => is_alpha_az c || blank c = true));
      [reflexivity|].
    apply Forall_forall. intros w Hw. apply filter_In in Hw.
    destruct Hw as [Hw _]. now destruct (W w Hw) as [_ [_ C]]. }
  split; [exact E|]. split; [exact S1|]. split.
  - rewrite S1. apply Forall_forall. intros w Hw. apply filter_In in Hw.
    destruct Hw as [_ Hw]. unfold keep in Hw. now apply negb_true_iff in Hw.
  - rewrite (remove_stopwords_words flag Htok Hout). fold keep.
    rewrite S1, E. f_equal.
    rewrite filter_filter. apply filter_ext. intros w. apply andb_diag.
Qed.

End Stopwords.

(** ** Concrete runs *)

(** With every toggle off the three stages without a toggle still run. *)
Example all_off_still_spaces :
  forall X : Externals,
    preprocess_doc all_off (py "U.S. jobs" ++ [10; 13] ++ py "|  up")
    = py "U . S . jobs up".
Proof. intros X. vm_compute. reflexivity. Qed.

(** C3 fails with digit removal on and special-character removal off: the
    first pass separates the dot from the 5, and the second pass removes
    the 5. *)
Lemma digits_pass_not_idempotent :
  (forall X : Externals,
     text_preprocessing [py "a 1.5"] only_digits = [py "a . 5"])
  /\ (forall X : Externals,
        text_preprocessing [py "a . 5"] only_digits = [py "a . "]).
Proof. split; intros X; vm_compute; reflexivity. Qed.

(** Outside ASCII the second pass can differ as well: the trade mark sign
    has no lower case, its compatibility decomposition is the two capital
    letters TM, and the second pass lowers them. *)
Lemma trade_mark_not_idempotent (X : Externals) :
  uni_lower [8482] = [8482] -> uni_nfkd [8482] = py "TM" ->
  preprocess_doc lower_and_accents [8482] = py "TM"
  /\ preprocess_doc lower_and_accents (py "TM") = py "tm".
Proof.
  intros H1 H2. split; [|vm_compute; reflexivity].
  unfold preprocess_doc, lower, remove_accented_chars, normalize_NFKD.
  cbn [lower_and_accents text_lower_case isRemoveEmail isRemoveHyperLink
       isRemoveAccentChar isRemoveDigits text_lemmatization
       isRemoveSpecialCharac stopword_removal].
  change (forallb is_ascii [8482]) with false. cbn iota. rewrite H1.
  change (forallb is_ascii [8482]) with false. cbn iota. rewrite H2.
  vm_compute. reflexivity.
Qed.


(** C7 fails on a frame of one row: the held-out part would take the row
    and the split refuses to leave the training part empty. *)
Lemma split_single_row_refused :
  train_test_split [0%nat] [py "Senate passes budget"] = None.
Proof. reflexivity. Qed.

(** Five rows and one draw of the generator. *)
Lemma split_is_partition_witness :
  (2 <= length [py "a"; py "b"; py "c"; py "d"; py "e"])%nat
  /\ Permutation [3; 0; 4; 1; 2]%nat (seq 0 5)
  /\ exists train test,
       train_test_split [3; 0; 4; 1; 2]%nat
         [py "a"; py "b"; py "c"; py "d"; py "e"] = Some (train, test)
       /\ (length train + length test = 5)%nat
       /\ length test = ((5 + 3) / 4)%nat
       /\ Permutation (train ++ test) [py "a"; py "b"; py "c"; py "d"; py "e"].
Proof.
  assert (Hn : (2 <= length [py "a"; py "b"; py "c"; py "d"; py "e"])%nat)
    by (simpl; lia).
  assert (Hp : Permutation [3; 0; 4; 1; 2]%nat (seq 0 5)).
  { apply (Permutation_cons_app [0; 1; 2]%nat [4%nat] 3%nat).
    apply (Permutation_cons_app [] [1; 2; 4]%nat 0%nat).
    apply (Permutation_cons_app [1; 2]%nat [] 4%nat).
    apply Permutation_refl. }
  split; [exact Hn|]. split; [exact Hp|].
  exact (@split_is_partition str [3; 0; 4; 1; 2]%nat
           [py "a"; py "b"; py "c"; py "d"; py "e"] Hn Hp).
Defined.

Example split_five_rows :
  train_test_split [3; 0; 4; 1; 2]%nat [py "a"; py "b"; py "c"; py "d"; py "e"]
  = Some ([py "e"; py "b"; py "c"], [py "d"; py "a"]).
Proof. reflexivity. Qed.

(** *** Runs with the stand-in libraries *)

#[local] Existing Instance sample_externals.

(** The example of the specification comes out as three words. *)
Example spec_example_output :
  preprocess_doc all_on spec_example = py "contact visit cat".
Proof. vm_compute. reflexivity. Qed.

(** With lemmatization on, a document within the limit is returned. *)
Example spec_example_returned :
  text_preprocessing_call [spec_example] all_on
  = Returns [py "contact visit cat"].
Proof. vm_compute. reflexivity. Qed.

(** The example with the stand-in libraries, which meet the two provisos. *)
Lemma spec_example_cleaned_witness :
  Forall (fun c => is_alpha_az c || blank c = true)
         (lemmatize_text (py "contact me at   or visit    cats"))
  /\ no_occ (py "http")
            (lemmatize_text (py "contact me at   or visit    cats"))
  /\ (forall t, Forall (fun c => is_alpha_az c || blank c = true) t ->
                tokenize t = split t)
  /\ (re_sub special_char_pattern (fun m => py " " ++ m ++ py " ")
        (re_sub newline_re (fun _ => py " ")
           (remove_digits (remove_accented_chars (remove_hyperlink
              (remove_emails (lower spec_example))))))
      = py "contact me at   or visit    cats"
      /\ ~ In 64 (preprocess_doc all_on spec_example)
      /\ no_occ (py "http") (preprocess_doc all_on spec_example)
      /\ Forall (fun c => is_digit c = false)
                (preprocess_doc all_on spec_example)
      /\ exists words,
           preprocess_doc all_on spec_example = join (py " ") words
           /\ split (preprocess_doc all_on spec_example) = words
           /\ Forall (fun w => w <> []
                               /\ Forall (fun c => is_space c = false) w
                               /\ in_list (lower w) stopword_list = false)
                     words).
Proof.
  assert (H1 : Forall (fun c => is_alpha_az c || blank c = true)
                 (lemmatize_text (py "contact me at   or visit    cats"))).
  { apply (proj1 (forallb_Forall (fun c => is_alpha_az c || blank c) _)).
    vm_compute. reflexivity. }
  assert (H2 : no_occ (py "http")
                 (lemmatize_text (py "contact me at   or visit    cats"))).
  { apply occurs_nowhere_no_occ. vm_compute. reflexivity. }
  assert (H3 : forall t, Forall (fun c => is_alpha_az c || blank c = true) t ->
                         tokenize t = split t).
  { intros t _. reflexivity. }
  split; [exact H1|]. split; [exact H2|]. split; [exact H3|].
  exact (@spec_example_cleaned sample_externals H1 H2 H3).
Defined.

(** Two ASCII documents under the cleaners of the notebook. *)
Lemma idempotent_on_ascii_witness :
  Forall (Forall (fun c => is_ascii c = true)) [spec_example; py "a 1.5"]
  /\ text_lemmatization notebook_cleaners = false
  /\ stopword_removal notebook_cleaners = false
  /\ (isRemoveDigits notebook_cleaners = false
      \/ isRemoveSpecialCharac notebook_cleaners = true)
  /\ text_preprocessing
       (text_preprocessing [spec_example; py "a 1.5"] notebook_cleaners)
       notebook_cleaners
     = text_preprocessing [spec_example; py "a 1.5"] notebook_cleaners.
Proof.
  assert (H : Forall (Forall (fun c => is_ascii c = true))
                [spec_example; py "a 1.5"]).
  { repeat constructor;
      apply (proj1 (forallb_Forall is_ascii _)); vm_compute; reflexivity. }
  split; [exact H|]. split; [reflexivity|]. split; [reflexivity|].
  split; [right; reflexivity|].
  exact (@idempotent_on_ascii sample_externals notebook_cleaners
           [spec_example; py "a 1.5"] H eq_refl eq_refl (or_intror eq_refl)).
Defined.

(** A headline with a dotted abbreviation and runs of spaces, under the
    cleaners of the notebook. *)
Lemma cleaned_single_spaced_witness :
  stopword_removal notebook_cleaners = false
  /\ no_occ (py "  ")
       (preprocess_doc notebook_cleaners (py "U.S.  jobs   up 3%"))
  /\ (isRemoveSpecialCharac notebook_cleaners = true ->
      Forall (fun c => is_alpha_az c || is_space c = true)
             (preprocess_doc notebook_cleaners (py "U.S.  jobs   up 3%"))).
Proof.
  split; [reflexivity|].
  exact (@cleaned_single_spaced sample_externals notebook_cleaners
           (py "U.S.  jobs   up 3%") eq_refl).
Defined.

(** A headline over two lines with a bar in it. *)
Lemma cleaned_one_line_witness :
  text_lemmatization notebook_cleaners = false
  /\ stopword_removal notebook_cleaners = false
  /\ Forall (fun c => c <> 13 /\ c <> 10 /\ c <> 124)
       (preprocess_doc notebook_cleaners
          (py "Markets | Asia" ++ [13; 10] ++ py "stocks slip"))
  /\ (isRemoveAccentChar notebook_cleaners = true ->
      Forall (fun c => is_ascii c = true)
        (preprocess_doc notebook_cleaners
           (py "Markets | Asia" ++ [13; 10] ++ py "stocks slip"))).
Proof.
  split; [reflexivity|]. split; [reflexivity|].
  exact (@cleaned_one_line sample_externals notebook_cleaners
           (py "Markets | Asia" ++ [13; 10] ++ py "stocks slip")
           eq_refl eq_refl).
Defined.

(** An ASCII headline with capitals and a link. *)
Lemma cleaned_ascii_document_witness :
  Forall (fun c => is_ascii c = true) (py "Read https://News.example/A now")
  /\ text_lemmatization notebook_cleaners = false
  /\ stopword_removal notebook_cleaners = false
  /\ Forall (fun c => is_ascii c = true)
       (preprocess_doc notebook_cleaners
          (py "Read https://News.example/A now"))
  /\ (text_lower_case notebook_cleaners = true ->
      Forall (fun c => is_upper_az c = false)
        (preprocess_doc notebook_cleaners
           (py "Read https://News.example/A now")))
  /\ (isRemoveHyperLink notebook_cleaners = true ->
      no_occ (py "http://")
        (preprocess_doc notebook_cleaners
           (py "Read https://News.example/A now"))
      /\ no_occ (py "https://")
           (preprocess_doc notebook_cleaners
              (py "Read https://News.example/A now"))).
Proof.
  assert (H : Forall (fun c => is_ascii c = true)
                (py "Read https://News.example/A now")).
  { apply (proj1 (forallb_Forall is_ascii _)). vm_compute. reflexivity. }
  split; [exact H|]. split; [reflexivity|]. split; [reflexivity|].
  exact (@cleaned_ascii_document sample_externals notebook_cleaners
           (py "Read https://News.example/A now") H eq_refl eq_refl).
Defined.

(** Three rows and two rows with the same two labels. *)
Lemma category_map_of_label_set_witness :
  (forall l,
     In l (map label [ {| label := py "sport"; sentence := py "a" |};
                       {| label := py "business"; sentence := py "b" |};
                       {| label := py "sport"; sentence := py "c" |} ])
     <-> In l (map label [ {| label := py "business"; sentence := py "d" |};
                           {| label := py "sport"; sentence := py "e" |} ]))
  /\ category_map [ {| label := py "sport"; sentence := py "a" |};
                    {| label := py "business"; sentence := py "b" |};
                    {| label := py "sport"; sentence := py "c" |} ]
     = category_map [ {| label := py "business"; sentence := py "d" |};
                      {| label := py "sport"; sentence := py "e" |} ]
  /\ forall l,
       index_of l
         (unique (map label
            [ {| label := py "sport"; sentence := py "a" |};
              {| label := py "business"; sentence := py "b" |};
              {| label := py "sport"; sentence := py "c" |} ]))
       = index_of l
           (unique (map label
              [ {| label := py "business"; sentence := py "d" |};
                {| label := py "sport"; sentence := py "e" |} ])).
Proof.
  assert (H : forall l,
     In l (map label [ {| label := py "sport"; sentence := py "a" |};
                       {| label := py "business"; sentence := py "b" |};
                       {| label := py "sport"; sentence := py "c" |} ])
     <-> In l (map label [ {| label := py "business"; sentence := py "d" |};
                           {| label := py "sport"; sentence := py "e" |} ])).
  { intros l. cbn [map label In]. tauto. }
  split; [exact H|].
  exact (@category_map_of_label_set _ _ H).
Defined.

(** [business] comes before [sport], and has the smaller code. *)
Lemma codes_follow_order_witness :
  In (py "business") [py "sport"; py "business"; py "sport"]
  /\ In (py "sport") [py "sport"; py "business"; py "sport"]
  /\ (str_compare (py "business") (py "sport") = Lt
      <-> (index_of (py "business")
             (unique [py "sport"; py "business"; py "sport"])
           < index_of (py "sport")
               (unique [py "sport"; py "business"; py "sport"]))%nat)
  /\ (py "business" = py "sport"
      <-> index_of (py "business")
            (unique [py "sport"; py "business"; py "sport"])
          = index_of (py "sport")
              (unique [py "sport"; py "business"; py "sport"])).
Proof.
  assert (Ha : In (py "business") [py "sport"; py "business"; py "sport"])
    by (right; left; reflexivity).
  assert (Hb : In (py "sport") [py "sport"; py "business"; py "sport"])
    by (left; reflexivity).
  split; [exact Ha|]. split; [exact Hb|].
  exact (@codes_follow_order [py "sport"; py "business"; py "sport"]
           (py "business") (py "sport") Ha Hb).
Defined.

(** The split of five rows above. *)
Lemma split_returns_bounds_witness :
  train_test_split [3; 0; 4; 1; 2]%nat
    [py "a"; py "b"; py "c"; py "d"; py "e"]
  = Some ([py "e"; py "b"; py "c"], [py "d"; py "a"])
  /\ (2 <= length [py "a"; py "b"; py "c"; py "d"; py "e"])%nat
  /\ Forall (fun r => In r [py "a"; py "b"; py "c"; py "d"; py "e"])
       [py "e"; py "b"; py "c"]
  /\ Forall (fun r => In r [py "a"; py "b"; py "c"; py "d"; py "e"])
       [py "d"; py "a"]
  /\ (length [3; 0; 4; 1; 2]%nat
      = length [py "a"; py "b"; py "c"; py "d"; py "e"] ->
      length [py "d"; py "a"]
      = ((length [py "a"; py "b"; py "c"; py "d"; py "e"] + 3) / 4)%nat
      /\ (length [py "e"; py "b"; py "c"] + length [py "d"; py "a"]
          = length [py "a"; py "b"; py "c"; py "d"; py "e"])%nat
      /\ (1 <= length [py "d"; py "a"] <= length [py "e"; py "b"; py "c"])%nat
      /\ (length [py "a"; py "b"; py "c"; py "d"; py "e"]
          <= 4 * length [py "d"; py "a"]
          < length [py "a"; py "b"; py "c"; py "d"; py "e"] + 4)%nat).
Proof.
  split; [reflexivity|].
  exact (@split_returns_bounds str [3; 0; 4; 1; 2]%nat
           [py "a"; py "b"; py "c"; py "d"; py "e"]
           [py "e"; py "b"; py "c"] [py "d"; py "a"] eq_refl).
Defined.

(** A sentence of six words, three of them stopwords. *)
Lemma remove_stopwords_settles_witness :
  (forall u, Forall (fun c => is_alpha_az c || blank c = true) u ->
             tokenize u = split u)
  /\ Forall (fun c => is_alpha_az c || blank c = true)
       (py "The cat sat on the mat")
  /\ remove_stopwords (py "The cat sat on the mat") true
     = join (py " ")
         (filter (fun w => negb (in_list (lower w) stopword_list))
                 (split (py "The cat sat on the mat")))
  /\ split (remove_stopwords (py "The cat sat on the mat") true)
     = filter (fun w => negb (in_list (lower w) stopword_list))
              (split (py "The cat sat on the mat"))
  /\ Forall (fun w => in_list (lower w) stopword_list = false)
       (split (remove_stopwords (py "The cat sat on the mat") true))
  /\ remove_stopwords (remove_stopwords (py "The cat sat on the mat") true)
       true
     = remove_stopwords (py "The cat sat on the mat") true.
Proof.
  assert (H1 : forall u,
             Forall (fun c => is_alpha_az c || blank c = true) u ->
             tokenize u = split u).
  { intros u _. reflexivity. }
  assert (H2 : Forall (fun c => is_alpha_az c || blank c = true)
                 (py "The cat sat on the mat")).
  { apply (proj1 (forallb_Forall (fun c => is_alpha_az c || blank c) _)).
    vm_compute. reflexivity. }
  split; [exact H1|]. split; [exact H2|].
  exact (@remove_stopwords_settles sample_externals
           (py "The cat sat on the mat") true H1 H2).
Defined.

Example stopwords_of_a_sentence :
  remove_stopwords (py "The cat sat on the mat") true = py "cat sat mat".
Proof. vm_compute. reflexivity. Qed.

Example endpoint_name_of_the_notebook :
  endpoint_name (py "ml.m5.large") (py "ml.eia2.xlarge")
    (py "1612345678.1234")
  = py "bert-ei-traced-mlm5large-mleia2xlarge-16123456781234".
Proof. vm_compute. reflexivity. Qed.
